(** * AIService (backend/internal/ai/service.go)

    A shallow embedding of the chat orchestration code of the blog
    backend: [OpenAIMode], [DisableOpenAIMode], [ChatStream] and
    [StreamAIResponse], followed by [CreateChat], [ClassifyContent] and
    the origins that [main] allows.

    The first part is the model: the data, the calls the service makes,
    the service itself, and implementations of what it calls that can be
    run.  The second part states and proves its properties.

    The service talks to its collaborators (post repository, task
    enqueuer, embedding client, HTTP client, the caller's callback) only
    through calls whose answers it cannot control.  A program is therefore
    a tree of such calls ([Prog]); running it against an environment
    ([Env]) yields the returned value, the final world and the list of
    calls that were made, in order. *)

From stdpp Require Import base option list sorting strings gmap.
From Stdlib Require Import Ascii ZArith Floats.SpecFloat.
From Equations Require Import Equations.

Local Open Scope string_scope.
Set Warnings "-register-all,-clear-no-such-hyp".
Local Set Equations Transparent.

(** ** Data *)

(** A Go [error] value, identified by its message. [None] is [nil]. *)
Inductive error := mkError (msg : string).

Definition fmt_Errorf (msg : string) : error := mkError msg.

Global Instance error_eq_dec : EqDecision error.
Proof. solve_decision. Defined.

(** [uuid.UUID] is a 16 byte array; its value is kept as a number. *)
Definition UUID := N.

(** [models.User]: only [ID] is read by the service. *)
Record User := { ID : UUID }.

(** [models.Post]: [AuthorID], [AIChatOpen] (the spec's ChatEnabled) and
    [AIReady] (EmbeddingsReady) are the fields the service touches;
    [PostID] is the key under which the repository stores the post. *)
Record Post := {
  PostID : string;
  AuthorID : UUID;
  AIChatOpen : bool;
  AIReady : bool
}.

(** IEEE 754 numbers, as the standard library specifies them. *)
Definition float32 := spec_float.
Definition float64 := spec_float.

(** [models.Embedding], a stored chunk: [chunk.Content] and
    [chunk.Vector.Slice()]. *)
Record Embedding := {
  Content : string;
  Vector : list float32
}.

(** [http.Response]: the status code and the body.  The body is what the
    reader delivers before its first read error ([Body]) and that error
    ([BodyErr], [io.EOF] on a clean close); a response ends, so [Body] is
    finite. *)
Record Response := {
  StatusCode : Z;
  Body : string;
  BodyErr : error
}.

(** Arguments of [fmt.Println]. *)
Inductive any := aString (s : string) | aInt (n : Z).

Global Instance User_eq_dec : EqDecision User.
Proof. solve_decision. Defined.
Global Instance Post_eq_dec : EqDecision Post.
Proof. solve_decision. Defined.

(** ** Calls to the outside *)

Inductive action :=
  (* post.PostRepositoryInterface *)
  | GetByID (postID : string)
  | Update (post : Post)
  | DeleteEmbeddingsByPostID (postID : string)
  | GetEmbeddingByPostID (postID : string)
  (* TaskEnqueuer *)
  | EnqueuePostEmbedding (post : Post) (userData : User)
  (* embedding client *)
  | GetEmbedding (text : string)
  (* process environment, network, standard output *)
  | os_Getenv (key : string)
  | http_Post (url contentType body : string)
  | fmt_Println (args : list any)
  | Body_Close
  (* the caller's callback *)
  | onChunk (fragment : string).

(** What each call returns.  Go's [(value, error)] pairs are kept as
    pairs where the code looks at both components; [http.Post] promises a
    response exactly when the error is nil, which is a sum. *)
Definition result (a : action) : Type :=
  match a with
  | GetByID _ => (option Post * option error)%type
  | Update _ => option error
  | DeleteEmbeddingsByPostID _ => option error
  | GetEmbeddingByPostID _ => (list Embedding * option error)%type
  | EnqueuePostEmbedding _ _ => option error
  | GetEmbedding _ => (list float32 * option error)%type
  | os_Getenv _ => string
  | http_Post _ _ _ => (error + Response)%type
  | fmt_Println _ => unit
  | Body_Close => unit
  | onChunk _ => unit
  end.

Inductive Prog (R : Type) : Type :=
  | Ret (r : R)
  | Act (a : action) (k : result a → Prog R).
Arguments Ret {R} r.
Arguments Act {R} a k.

Fixpoint Prog_bind {A B} (f : A → Prog B) (p : Prog A) : Prog B :=
  match p with
  | Ret a => f a
  | Act a k => Act a (λ x, Prog_bind f (k x))
  end.

Global Instance Prog_mret : MRet Prog := @Ret.
Global Instance Prog_mbind : MBind Prog := @Prog_bind.

Definition perform (a : action) : Prog (result a) := Act a Ret.

(** One entry of the call log: the call and what it returned. *)
Inductive Event := ev (a : action) (r : result a).

(** An environment answers every call, possibly changing its own state. *)
Record Env := {
  World : Type;
  handle : ∀ a : action, World → result a * World
}.

Fixpoint run {R} (E : Env) (p : Prog R) (w : World E) : R * World E * list Event :=
  match p with
  | Ret r => (r, w, [])
  | Act a k =>
      let '(x, w1) := handle E a w in
      let '(r, w2, tr) := run E (k x) w1 in
      (r, w2, ev a x :: tr)
  end.

(** ** Library functions

    [encoding/json], [bytes], [sort] and the repository's own
    [utils.CosineSimilarity] are not part of this file.  The service is
    written against their interfaces; every result below holds for all
    implementations, and reference implementations that compute follow the
    service. *)

(** A decoded JSON value held in an [interface{}]. *)
Inductive Value :=
  | VNil
  | VBool (b : bool)
  | VNumber (lit : string)
  | VString (s : string)
  | VSlice (l : list Value)
  | VMap (m : list (string * Value)).

(** [m[key]] on a [map[string]interface{}]: the zero value [nil] when the
    key is absent (also on a nil map). *)
Fixpoint map_index (m : list (string * Value)) (key : string) : Value :=
  match m with
  | [] => VNil
  | (k, v) :: m => if String.eqb k key then v else map_index m key
  end.

(** [v.(map[string]interface{})] and [v.(string)], with their [ok]. *)
Definition assert_map (v : Value) : option (list (string * Value)) :=
  match v with VMap m => Some m | _ => None end.
Definition assert_string (v : Value) : option string :=
  match v with VString s => Some s | _ => None end.

Record AskRequest := { Question : string }.

(** [sort.Interface]'s requirement on [Less], for the elements at hand. *)
Definition transitive_ordering {A} (less : A → A → bool) (l : list A) : Prop :=
  (∀ x, x ∈ l → less x x = false) ∧
  (∀ x y z, x ∈ l → y ∈ l → z ∈ l →
     less x y = true → less y z = true → less x z = true) ∧
  (∀ x y z, x ∈ l → y ∈ l → z ∈ l →
     less x y = false → less y z = false → less x z = false).

(** [sort.SliceIsSorted]. *)
Definition IsSorted {A} (less : A → A → bool) (l : list A) : Prop :=
  ∀ i x y, l !! i = Some x → l !! S i = Some y → less y x = false.

Class GoLib := {
  (** [json.Unmarshal(data, &req)] for [req AskRequest] *)
  json_Unmarshal_AskRequest : string → error + AskRequest;
  (** [json.Unmarshal(data, &chunk)] for [chunk map[string]interface{}] *)
  json_Unmarshal_map : string → error + list (string * Value);
  json_Marshal : Value → string;
  bytes_TrimSpace : string → string;
  (** [sort.Slice]: rearranges by swaps; sorted when [less] is a
      transitive ordering; "not guaranteed to be stable". *)
  sort_Slice : ∀ {A : Type}, (A → A → bool) → list A → list A;
  sort_Slice_Permutation : ∀ A (less : A → A → bool) l, sort_Slice less l ≡ₚ l;
  sort_Slice_IsSorted : ∀ A (less : A → A → bool) l,
    transitive_ordering less l → IsSorted less (sort_Slice less l)
}.

Class Utils := {
  CosineSimilarity : list float32 → list float32 → float64
}.

(** [a > b] on [float64]. *)
Definition float_gt (a b : float64) : bool := SFltb b a.

Definition LF : ascii := "010"%char.
Definition DQ : ascii := "034"%char.

(** [bytes.HasPrefix], [s[n:]] (for [n] within bounds), [bytes.Equal],
    [strings.Join]. *)
Definition bytes_HasPrefix (s prefix : string) : bool := String.prefix prefix s.
Fixpoint slice_from (n : nat) (s : string) : string :=
  match n, s with
  | S n, String _ s => slice_from n s
  | _, _ => s
  end.
Definition bytes_Equal (a b : string) : bool := String.eqb a b.
Definition strings_Join (elems : list string) (sep : string) : string :=
  String.concat sep elems.

(** ** bufio.Reader over the response body *)

Record Reader := { buf : string; rerr : error }.

Definition bufio_NewReader (resp : Response) : Reader :=
  {| buf := Body resp; rerr := BodyErr resp |}.

(** Splits [s] after the first [delim]. *)
Fixpoint split_after (delim : ascii) (s : string) : option (string * string) :=
  match s with
  | EmptyString => None
  | String c s' =>
      if decide (c = delim) then Some (String c EmptyString, s')
      else match split_after delim s' with
           | Some (line, rest) => Some (String c line, rest)
           | None => None
           end
  end.

(** [reader.ReadBytes(delim)]: the bytes up to and including the
    delimiter; when the input ends first, the bytes read so far and the
    error. *)
Definition ReadBytes (delim : ascii) (rd : Reader) : string * option error * Reader :=
  match split_after delim (buf rd) with
  | Some (line, rest) => (line, None, {| buf := rest; rerr := rerr rd |})
  | None => (buf rd, Some (rerr rd), {| buf := ""; rerr := rerr rd |})
  end.

Lemma split_after_shorter delim s line rest :
  split_after delim s = Some (line, rest) →
  String.length rest < String.length s.
Proof.
  revert line rest. induction s as [|c s IH]; simpl; [done|].
  intros line rest. case_decide.
  - intros [= <- <-]. lia.
  - destruct (split_after delim s) as [[l r]|]; [|done].
    intros [= <- <-]. specialize (IH _ _ eq_refl). lia.
Defined.

Lemma ReadBytes_shorter delim rd line rd' :
  ReadBytes delim rd = (line, None, rd') →
  String.length (buf rd') < String.length (buf rd).
Proof.
  unfold ReadBytes.
  destruct (split_after delim (buf rd)) as [[l r]|] eqn:H; [|done].
  intros [= <- <-]. simpl. by eapply split_after_shorter.
Defined.

Definition inspect {A} (a : A) : {b | a = b} := exist _ a eq_refl.

(** ** The service

    [userData] is a [*models.User] that callers hand over non-nil.  The
    [*models.Post] that [GetByID] returns is the caller's own: assigning
    to its fields changes that value, which reaches the repository only
    as the argument of [Update]. *)

Definition OpenAIMode (postID : string) (userData : User) : Prog (bool * option error) :=
  '(post, err) ← perform (GetByID postID);
  match err with
  | Some e => Ret (false, Some e)
  | None =>
  match post with
  | None => Ret (false, None)
  | Some post =>
  if AIChatOpen post then Ret (false, None) (* AI chat already open *)
  else if bool_decide (AuthorID post ≠ ID userData) then
    Ret (false, None) (* User is not the author of the post *)
  else
    err ← perform (EnqueuePostEmbedding post userData);
    match err with
    | Some e => Ret (false, Some e)
    | None => Ret (true, None)
    end
  end end.

Definition DisableOpenAIMode (postID : string) (userData : User) : Prog (bool * option error) :=
  '(post, err) ← perform (GetByID postID);
  match err with
  | Some e => Ret (false, Some e)
  | None =>
  match post with
  | None => Ret (false, None)
  | Some post =>
  if negb (AIChatOpen post) then Ret (false, None) (* AI chat already disabled *)
  else if bool_decide (AuthorID post ≠ ID userData) then
    Ret (false, None) (* User is not the author of the post *)
  else
    let post := {| PostID := PostID post; AuthorID := AuthorID post;
                   AIChatOpen := false; AIReady := AIReady post |} in
    let post := {| PostID := PostID post; AuthorID := AuthorID post;
                   AIChatOpen := AIChatOpen post; AIReady := false |} in
    err ← perform (Update post);
    match err with
    | Some e => Ret (false, Some e)
    | None =>
      (* delete all embeddings for this post *)
      err ← perform (DeleteEmbeddingsByPostID postID);
      match err with
      | Some e => Ret (false, Some e)
      | None => Ret (true, None)
      end
    end
  end end.

Section Service.
Context `{lib : GoLib} `{utils : Utils}.

(** The body of the read loop of [StreamAIResponse], for one line. *)
Definition handle_line (line : string) : Prog unit :=
  if bytes_HasPrefix line "data: " then
    let raw := bytes_TrimSpace (slice_from 6 line) in
    if (String.length raw =? 0)%nat || bytes_Equal raw "[DONE]" then
      Ret tt (* continue *)
    else
      match json_Unmarshal_map raw with
      | inl _ => Ret tt (* continue *)
      | inr chunk =>
          match assert_map (map_index chunk "message") with
          | Some message =>
              match assert_string (map_index message "content") with
              | Some content =>
                  let jsonEncoded := json_Marshal (VMap [("text", VString content)]) in
                  perform (onChunk jsonEncoded)
              | None => Ret tt
              end
          | None => Ret tt
          end
      end
  else Ret tt.

(** [for { line, err := reader.ReadBytes('\n'); ... }] *)
Equations read_loop (reader : Reader) : Prog unit
  by wf (String.length (buf reader)) lt :=
  read_loop reader with inspect (ReadBytes LF reader) := {
    | exist _ (line, Some _, _) _ =>
        perform (fmt_Println [aString "Received line:"; aString line]);;
        Ret tt (* break *)
    | exist _ (line, None, reader') Heq =>
        perform (fmt_Println [aString "Received line:"; aString line]);;
        handle_line line;;
        read_loop reader' }.
Next Obligation. eapply ReadBytes_shorter, Heq. Defined.

Definition StreamAIResponse (context question : string) : Prog (option error) :=
  models ← perform (os_Getenv "AI_MODEL");
  let payload := VMap [
    ("model", VString models);
    ("stream", VBool true);
    ("messages", VSlice [
      VMap [("role", VString "system"); ("content", VString context)];
      VMap [("role", VString "user"); ("content", VString question)]])] in
  let body := json_Marshal payload in
  ollamaURL ← perform (os_Getenv "AI_HOST");
  r ← perform (http_Post (ollamaURL +:+ "/api/generate") "application/json" body);
  match r with
  | inl err => Ret (Some err)
  | inr resp =>
      perform (fmt_Println [aString "Response status:"; aInt (StatusCode resp)]);;
      let reader := bufio_NewReader resp in
      read_loop reader;;
      perform Body_Close;; (* deferred *)
      Ret None
  end.

Record ScoredChunk := { Text : string; Score : float64 }.

(** [for i := 0; i < 3 && i < len(scoredChunks); i++]; the loop runs at
    most three times, which is the recursion bound [n]. *)
Fixpoint topChunks_loop (n i : nat) (scoredChunks : list ScoredChunk)
    (topChunks : list string) : list string :=
  match n with
  | 0 => topChunks
  | S n =>
      if (i <? 3)%nat && (i <? length scoredChunks)%nat then
        match scoredChunks !! i with
        | Some c => topChunks_loop n (S i) scoredChunks (topChunks ++ [Text c])
        | None => topChunks
        end
      else topChunks
  end.

Definition no_context : string :=
  "There is no relevant information from the document. Answer the question as best as you can or inform the user you cannot answer.".

Definition not_available : error :=
  fmt_Errorf "post not found or AI not enabled".

(** The pure part of [ChatStream] between loading the chunks and calling
    the model: scoring, sorting, top chunks, context. *)
Definition score_chunks (chunks : list Embedding) (questionEmbedding : list float32)
    : list ScoredChunk :=
  (λ chunk, {| Text := Content chunk;
               Score := CosineSimilarity (Vector chunk) questionEmbedding |}) <$> chunks.

Definition sort_chunks (scoredChunks : list ScoredChunk) : list ScoredChunk :=
  sort_Slice (λ ci cj, float_gt (Score ci) (Score cj)) scoredChunks.

Definition build_context (scoredChunks : list ScoredChunk) : string :=
  let topChunks := topChunks_loop 3 0 scoredChunks [] in
  let fullContext := strings_Join topChunks (String LF (String LF "")) in
  if String.eqb fullContext "" then no_context else fullContext.

Definition ChatStream (postID : string) (userData : User) (prompt : string)
    : Prog (option error) :=
  match json_Unmarshal_AskRequest prompt with
  | inl err => Ret (Some err)
  | inr req =>
  '(post, err) ← perform (GetByID postID);
  if bool_decide (err ≠ None) || bool_decide (post = None)
     || negb (from_option AIChatOpen false post) then
    Ret (Some not_available)
  else
  '(questionEmbedding, err) ← perform (GetEmbedding (Question req));
  match err with
  | Some e => Ret (Some e)
  | None =>
  '(chunks, err) ← perform (GetEmbeddingByPostID postID);
  match err with
  | Some e => Ret (Some e)
  | None =>
  let scoredChunks := score_chunks chunks questionEmbedding in
  let scoredChunks := sort_chunks scoredChunks in
  let fullContext := build_context scoredChunks in
  (* Call streaming LLM *)
  StreamAIResponse fullContext (Question req)
  end end end.

End Service.

(** ** What the statements speak of *)

(** The outcome of a run: the value returned, the world left, the calls made. *)
Definition value_of {R} {E : Env} (out : R * World E * list Event) : R := out.1.1.
Definition world_of {R} {E : Env} (out : R * World E * list Event) : World E := out.1.2.
Definition log_of {R} {E : Env} (out : R * World E * list Event) : list Event := out.2.

(** The fragments handed to [onChunk], in order. *)
Definition fragment_of (e : Event) : option string :=
  match e with ev (onChunk fragment) _ => Some fragment | _ => None end.
Definition fragments (log : list Event) : list string := omap fragment_of log.

(** The jobs handed to [EnqueuePostEmbedding], in order. *)
Definition job_of (e : Event) : option (Post * User) :=
  match e with
  | ev (EnqueuePostEmbedding post userData) _ => Some (post, userData)
  | _ => None
  end.
Definition enqueued (log : list Event) : list (Post * User) := omap job_of log.

(** The posts handed to [Update], in order. *)
Definition update_of (e : Event) : option Post :=
  match e with ev (Update post) _ => Some post | _ => None end.
Definition updated (log : list Event) : list Post := omap update_of log.

(** The answers of [http.Post], in order. *)
Definition answer_of (e : Event) : option (error + Response) :=
  match e with ev (http_Post _ _ _) r => Some r | _ => None end.
Definition posted (log : list Event) : list (error + Response) := omap answer_of log.

Arguments fragments : simpl never.
Arguments enqueued : simpl never.
Arguments updated : simpl never.
Arguments posted : simpl never.

(** The post as [DisableOpenAIMode] hands it to [Update]. *)
Definition switched_off (post : Post) : Post :=
  {| PostID := PostID post; AuthorID := AuthorID post;
     AIChatOpen := false; AIReady := false |}.

(** The calls the read loop makes: printing and the callback. *)
Definition quiet (e : Event) : Prop :=
  match e with
  | ev (fmt_Println _) _ | ev (onChunk _) _ => True
  | _ => False
  end.

(** The lines of a body that end in a newline, newline included; what
    follows the last newline is no line. *)
Fixpoint lines (s : string) : list string :=
  match s with
  | EmptyString => []
  | String c s' =>
      if decide (c = LF) then String c EmptyString :: lines s'
      else match lines s' with
           | [] => []
           | line :: rest => String c line :: rest
           end
  end.

(** Where a number that is not NaN stands in the order of [float64]:
    its class (infinities outermost), then exponent, then mantissa. *)
Definition float_key (x : float64) : Z * Z * Z :=
  match x with
  | S754_zero _ => (0, 0, 0)%Z
  | S754_infinity s => (if s then -2 else 2, 0, 0)%Z
  | S754_nan => (0, 0, 0)%Z
  | S754_finite s m e => if s then (-1, - e, Z.neg m)%Z else (1, e, Z.pos m)%Z
  end.

Definition key_lt (a b : Z * Z * Z) : Prop :=
  (a.1.1 < b.1.1 ∨
   (a.1.1 = b.1.1 ∧ (a.1.2 < b.1.2 ∨ (a.1.2 = b.1.2 ∧ a.2 < b.2))))%Z.

Section Notions.
Context `{lib : GoLib} `{utils : Utils}.

(** The text a line carries for the caller, as the loop body finds it. *)
Definition payload_text (line : string) : option string :=
  if bytes_HasPrefix line "data: " then
    let raw := bytes_TrimSpace (slice_from 6 line) in
    if (String.length raw =? 0)%nat || bytes_Equal raw "[DONE]" then None
    else
      match json_Unmarshal_map raw with
      | inl _ => None
      | inr chunk =>
          match assert_map (map_index chunk "message") with
          | Some message => assert_string (map_index message "content")
          | None => None
          end
      end
  else None.

(** [json.Marshal(map[string]string{"text": content})] *)
Definition fragment_for (content : string) : string :=
  json_Marshal (VMap [("text", VString content)]).

(** The context [ChatStream] builds from the stored chunks and the
    embedded question. *)
Definition chat_context (chunks : list Embedding) (questionEmbedding : list float32) : string :=
  build_context (sort_chunks (score_chunks chunks questionEmbedding)).

(** The test at the head of [ChatStream]. *)
Definition gate_closed (post : option Post) (err : option error) : bool :=
  bool_decide (err ≠ None) || bool_decide (post = None)
  || negb (from_option AIChatOpen false post).

(** [func(i, j int) bool { return scoredChunks[i].Score > scoredChunks[j].Score }] *)
Definition by_score (ci cj : ScoredChunk) : bool := float_gt (Score ci) (Score cj).

End Notions.

(** ** Reference implementations of the library functions

    Enough of [encoding/json], [bytes.TrimSpace] and [sort.Slice] to run
    the service on concrete inputs: JSON over ASCII without [\u] escapes,
    ASCII white space, and the insertion sort that [sort.Slice] uses on
    short slices.  Two further modules give [sort.Slice] as two generations
    of Go implement it on short slices. *)
Module Reference.

Definition is_space (c : ascii) : bool :=
  bool_decide (c ∈ [" "; "009"; "010"; "011"; "012"; "013"]%char).

Fixpoint trim_left (s : string) : string :=
  match s with
  | String c s' => if is_space c then trim_left s' else s
  | EmptyString => EmptyString
  end.

Fixpoint trim_right (s : string) : string :=
  match s with
  | String c s' =>
      let t := trim_right s' in
      if is_space c && String.eqb t "" then "" else String c t
  | EmptyString => EmptyString
  end.

Definition TrimSpace (s : string) : string := trim_right (trim_left s).

(** *** Decoding *)

(** White space between the tokens of a JSON text: space, tab, line feed
    and carriage return, and no other. *)
Definition is_json_space (c : ascii) : bool :=
  bool_decide (c ∈ [" "; "009"; "010"; "013"]%char).

Fixpoint skip_space (s : string) : string :=
  match s with
  | String c s' => if is_json_space c then skip_space s' else s
  | EmptyString => EmptyString
  end.

Definition unescape (c : ascii) : option ascii :=
  if decide (c = DQ) then Some DQ
  else if decide (c = "\"%char) then Some "\"%char
  else if decide (c = "/"%char) then Some "/"%char
  else if decide (c = "b"%char) then Some "008"%char
  else if decide (c = "f"%char) then Some "012"%char
  else if decide (c = "n"%char) then Some "010"%char
  else if decide (c = "r"%char) then Some "013"%char
  else if decide (c = "t"%char) then Some "009"%char
  else None.

(** The text of a string literal, after its opening quote. *)
Fixpoint scan_string (s : string) : option (string * string) :=
  match s with
  | EmptyString => None
  | String c s' =>
      if decide (c = DQ) then Some (EmptyString, s')
      else if decide (c = "\"%char) then
        match s' with
        | String e s'' =>
            match unescape e, scan_string s'' with
            | Some c', Some (str, rest) => Some (String c' str, rest)
            | _, _ => None
            end
        | EmptyString => None
        end
      else if (nat_of_ascii c <? 32)%nat then None
      else match scan_string s' with
           | Some (str, rest) => Some (String c str, rest)
           | None => None
           end
  end.

Definition is_number_char (c : ascii) : bool :=
  bool_decide (c ∈ ["0"; "1"; "2"; "3"; "4"; "5"; "6"; "7"; "8"; "9";
                    "-"; "+"; "."; "e"; "E"]%char).

Fixpoint scan_number (s : string) : string * string :=
  match s with
  | String c s' =>
      if is_number_char c then
        let '(lit, rest) := scan_number s' in (String c lit, rest)
      else (EmptyString, s)
  | EmptyString => (EmptyString, EmptyString)
  end.

Definition is_digit (c : ascii) : bool :=
  (48 <=? nat_of_ascii c)%nat && (nat_of_ascii c <=? 57)%nat.

Fixpoint skip_digits (s : string) : string :=
  match s with
  | String c s' => if is_digit c then skip_digits s' else s
  | EmptyString => EmptyString
  end.

(** One digit or more, then the rest. *)
Definition digits (s : string) : option string :=
  match s with
  | String c s' => if is_digit c then Some (skip_digits s') else None
  | EmptyString => None
  end.

(** The grammar of a JSON number: an optional minus sign; a zero, or a
    digit from 1 to 9 followed by digits; an optional fraction; an
    optional exponent. *)
Definition valid_number (lit : string) : bool :=
  let unsigned := match lit with String "-" s => s | _ => lit end in
  let integer :=
    match unsigned with
    | String "0" s => Some s
    | _ => digits unsigned
    end in
  let fraction :=
    match integer with
    | Some (String "." s) => digits s
    | _ => integer
    end in
  let exponent :=
    match fraction with
    | Some (String e s) =>
        if bool_decide (e ∈ ["e"; "E"]%char) then
          match s with
          | String sign s' =>
              if bool_decide (sign ∈ ["+"; "-"]%char) then digits s' else digits s
          | EmptyString => None
          end
        else fraction
    | _ => fraction
    end in
  match exponent with
  | Some EmptyString => true
  | _ => false
  end.

Definition expect (lit : string) (v : Value) (s : string) : option (Value * string) :=
  if String.prefix lit s then Some (v, slice_from (String.length lit) s) else None.

(** A later duplicate of a key replaces the earlier one, as in a Go map:
    members are pushed in front, and [map_index] finds the first. *)
Fixpoint decode_value (fuel : nat) (s : string) : option (Value * string) :=
  match fuel with
  | 0 => None
  | S fuel =>
      match skip_space s with
      | String c s' =>
          if decide (c = "{"%char) then
            match skip_space s' with
            | String "}" rest => Some (VMap [], rest)
            | _ => decode_members fuel s' []
            end
          else if decide (c = "["%char) then
            match skip_space s' with
            | String "]" rest => Some (VSlice [], rest)
            | _ => decode_elements fuel s' []
            end
          else if decide (c = DQ) then
            match scan_string s' with
            | Some (str, rest) => Some (VString str, rest)
            | None => None
            end
          else if decide (c = "t"%char) then expect "rue" (VBool true) s'
          else if decide (c = "f"%char) then expect "alse" (VBool false) s'
          else if decide (c = "n"%char) then expect "ull" VNil s'
          else if is_number_char c && negb (bool_decide (c ∈ ["+"; "."; "e"; "E"]%char)) then
            let '(lit, rest) := scan_number (String c s') in
            if valid_number lit then Some (VNumber lit, rest) else None
          else None
      | EmptyString => None
      end
  end
with decode_members (fuel : nat) (s : string) (acc : list (string * Value))
    : option (Value * string) :=
  match fuel with
  | 0 => None
  | S fuel =>
      match skip_space s with
      | String "034" s1 =>
          match scan_string s1 with
          | Some (key, s2) =>
              match skip_space s2 with
              | String ":" s3 =>
                  match decode_value fuel s3 with
                  | Some (v, s4) =>
                      match skip_space s4 with
                      | String "," s5 => decode_members fuel s5 ((key, v) :: acc)
                      | String "}" s5 => Some (VMap ((key, v) :: acc), s5)
                      | _ => None
                      end
                  | None => None
                  end
              | _ => None
              end
          | None => None
          end
      | _ => None
      end
  end
with decode_elements (fuel : nat) (s : string) (acc : list Value)
    : option (Value * string) :=
  match fuel with
  | 0 => None
  | S fuel =>
      match decode_value fuel s with
      | Some (v, s1) =>
          match skip_space s1 with
          | String "," s2 => decode_elements fuel s2 (acc ++ [v])
          | String "]" s2 => Some (VSlice (acc ++ [v]), s2)
          | _ => None
          end
      | None => None
      end
  end.

(** A whole document: one value, then nothing but white space. *)
Definition decode (data : string) : option Value :=
  match decode_value (S (String.length data)) data with
  | Some (v, rest) => if String.eqb (skip_space rest) "" then Some v else None
  | None => None
  end.

Definition SyntaxError : error := mkError "json: syntax error".
Definition UnmarshalTypeError : error := mkError "json: cannot unmarshal value into Go value".

Definition Unmarshal_map (data : string) : error + list (string * Value) :=
  match decode data with
  | None => inl SyntaxError
  | Some (VMap m) => inr m
  | Some VNil => inr []
  | Some _ => inl UnmarshalTypeError
  end.

Definition lower (c : ascii) : ascii :=
  let n := nat_of_ascii c in
  if (65 <=? n)%nat && (n <=? 90)%nat then ascii_of_nat (n + 32) else c.
Fixpoint to_lower (s : string) : string :=
  match s with
  | String c s' => String (lower c) (to_lower s')
  | EmptyString => EmptyString
  end.

(** Struct fields are matched without regard to case.  Every member
    that names the field is decoded into it, in the order of the text (the
    members come latest first here): a string is stored, [null] leaves the
    field alone, and any other value is a type error, which is kept and
    returned at the end whatever was stored before or after. *)
Fixpoint field_question (m : list (string * Value)) : error + string :=
  match m with
  | [] => inr ""
  | (k, v) :: m =>
      if String.eqb (to_lower k) "question" then
        match field_question m, v with
        | inl e, _ => inl e
        | inr _, VString s => inr s
        | inr q, VNil => inr q
        | inr _, _ => inl UnmarshalTypeError
        end
      else field_question m
  end.

Definition Unmarshal_AskRequest (data : string) : error + AskRequest :=
  match decode data with
  | None => inl SyntaxError
  | Some (VMap m) =>
      match field_question m with
      | inr q => inr {| Question := q |}
      | inl e => inl e
      end
  | Some VNil => inr {| Question := "" |}
  | Some _ => inl UnmarshalTypeError
  end.

(** *** Encoding *)

Definition hex_digit (n : nat) : ascii :=
  match String.get n "0123456789abcdef" with Some c => c | None => "0"%char end.

Definition escape (c : ascii) : string :=
  let n := nat_of_ascii c in
  if decide (c = DQ) then String "\" (String DQ "")
  else if decide (c = "\"%char) then "\\"
  else if decide (c = "010"%char) then "\n"
  else if decide (c = "013"%char) then "\r"
  else if decide (c = "009"%char) then "\t"
  else if (n <? 32)%nat || bool_decide (c ∈ ["<"; ">"; "&"]%char) then
    "\u00" +:+ String (hex_digit (n / 16)) (String (hex_digit (n mod 16)) "")
  else String c "".

Fixpoint escape_all (s : string) : string :=
  match s with
  | String c s' => escape c +:+ escape_all s'
  | EmptyString => EmptyString
  end.

Definition encode_string (s : string) : string :=
  String DQ (escape_all s) +:+ String DQ "".

(** Go's insertion sort ([insertionSortLessFunc]): each element in turn
    is swapped towards the front while it is less than its predecessor.
    [placed] is the part already in order, last element first. *)
Fixpoint insert_back {A} (less : A → A → bool) (x : A) (placed : list A) : list A :=
  match placed with
  | [] => [x]
  | y :: rest => if less x y then y :: insert_back less x rest else x :: placed
  end.

Definition insertionSort {A} (less : A → A → bool) (l : list A) : list A :=
  reverse (foldl (λ placed x, insert_back less x placed) [] l).

(** Keys of a Go map are unique: the binding [map_index] finds wins. *)
Fixpoint unique_keys {V} (m : list (string * V)) : list (string * V) :=
  match m with
  | [] => []
  | (k, v) :: m => (k, v) :: filter (λ kv, k ≠ kv.1) (unique_keys m)
  end.

Definition encode_member (kv : string * string) : string :=
  encode_string kv.1 +:+ ":" +:+ kv.2.

(** Map keys are written in sorted order. *)
Fixpoint encode (v : Value) : string :=
  match v with
  | VNil => "null"
  | VBool b => if b then "true" else "false"
  | VNumber lit => lit
  | VString s => encode_string s
  | VSlice l =>
      "[" +:+ String.concat ","
        ((fix each l := match l with [] => [] | x :: l => encode x :: each l end) l)
      +:+ "]"
  | VMap m =>
      let members :=
        (fix each m :=
           match m with [] => [] | (k, x) :: m => (k, encode x) :: each m end) m in
      "{" +:+ String.concat ","
        (encode_member <$>
           insertionSort (λ a b, String.ltb a.1 b.1) (unique_keys members))
      +:+ "}"
  end.

(** Sample JSON texts are written with ['] for the double quote. *)
Fixpoint json (s : string) : string :=
  match s with
  | String c s' => String (if decide (c = "'"%char) then DQ else c) (json s')
  | EmptyString => EmptyString
  end.

End Reference.

(** [sort.Slice] as Go implemented it up to release 1.18 ([quickSort_func]),
    on slices of at most twelve elements: one Shell pass with gap 6, then
    insertion sort.
<<
    for i := a + 6; i < b; i++ {
        if data.Less(i, i-6) { data.Swap(i, i-6) }
    }
    insertionSort_func(data, a, b)
>>
    With at most twelve elements the pairs [(i-6, i)] do not overlap, so
    the pass compares the first six elements with the rest, position by
    position.  On longer slices Go first partitions by quicksort; that
    part is not reproduced here, and insertion sort stands in for it. *)
Module Go118.

Fixpoint shell_pairs {A} (less : A → A → bool) (front back : list A) : list A * list A :=
  match front, back with
  | x :: front', y :: back' =>
      let '(f, b) := shell_pairs less front' back' in
      if less y x then (y :: f, x :: b) else (x :: f, y :: b)
  | _, _ => (front, back)
  end.

Definition shell_pass {A} (less : A → A → bool) (l : list A) : list A :=
  let '(f, b) := shell_pairs less (take 6 l) (drop 6 l) in (f ++ b)%list.

Definition sort {A} (less : A → A → bool) (l : list A) : list A :=
  if (length l <=? 12)%nat then Reference.insertionSort less (shell_pass less l)
  else Reference.insertionSort less l.

End Go118.

(** [sort.Slice] as Go implements it from release 1.19 on ([pdqsort_func]):
    insertion sort up to twelve elements; beyond, a pivot is chosen, a
    slice found in order is left alone, and otherwise the slice is
    partitioned around the pivot and both sides are sorted in turn.  A
    slice of thirteen elements is the one case written out here: it takes
    one partition, after which both sides have at most twelve elements.
    Longer slices, which Go partitions again, are not reproduced;
    insertion sort stands in for them. *)
Module Go119.
Section Sort.
Context {A : Type} (less : A → A → bool).

(** [data.Less(i, j)] and [data.Swap(i, j)] *)
Definition Less (data : list A) (i j : nat) : bool :=
  match data !! i, data !! j with
  | Some x, Some y => less x y
  | _, _ => false
  end.

Definition Swap (data : list A) (i j : nat) : list A :=
  match data !! i, data !! j with
  | Some x, Some y => <[i:=y]> (<[j:=x]> data)
  | _, _ => data
  end.

(** [order2_func]: the two indices, the one of the lesser element first. *)
Definition order2 (data : list A) (a b swaps : nat) : nat * nat * nat :=
  if Less data b a then (b, a, S swaps) else (a, b, swaps).

(** [median_func]: the index of the median of three elements. *)
Definition median (data : list A) (a b c swaps : nat) : nat * nat :=
  let '(a, b, swaps) := order2 data a b swaps in
  let '(b, c, swaps) := order2 data b c swaps in
  let '(a, b, swaps) := order2 data a b swaps in
  (b, swaps).

(** The scan of [partialInsertionSort_func], which on a slice of fewer
    than fifty elements only tells whether it is in order:
    [for i < b && !data.Less(i, i-1) { i++ }].  The first argument of this
    and of the next three functions bounds the number of steps. *)
Fixpoint scan_sorted (steps : nat) (data : list A) (i b : nat) : nat :=
  match steps with
  | 0 => i
  | S steps =>
      if (i <? b)%nat && negb (Less data i (i - 1)) then scan_sorted steps data (S i) b
      else i
  end.

(** [for i <= j && data.Less(i, a) { i++ }] *)
Fixpoint scan_up (steps : nat) (data : list A) (a i j : nat) : nat :=
  match steps with
  | 0 => i
  | S steps => if (i <=? j)%nat && Less data i a then scan_up steps data a (S i) j else i
  end.

(** [for i <= j && !data.Less(j, a) { j-- }] *)
Fixpoint scan_down (steps : nat) (data : list A) (a i j : nat) : nat :=
  match steps with
  | 0 => j
  | S steps =>
      if (i <=? j)%nat && negb (Less data j a) then scan_down steps data a i (j - 1) else j
  end.

(** The loop of [partition_func]: both scans, then either the indices have
    met ([break]) or the two elements are swapped and the loop goes on. *)
Fixpoint partition_loop (steps : nat) (data : list A) (a i j : nat) : list A * nat :=
  match steps with
  | 0 => (data, j)
  | S steps =>
      let i := scan_up (S j - i) data a i j in
      let j := scan_down (S j - i) data a i j in
      if (j <? i)%nat then (data, j)
      else partition_loop steps (Swap data i j) a (S i) (j - 1)
  end.

(** [partition_func]: the pivot goes to the front, the rest is split into
    the elements less than the pivot and the others, and the pivot is
    swapped into the place between them, which is returned with the flag
    that tells whether the slice was partitioned already. *)
Definition partition (data : list A) (a b pivot : nat) : list A * nat * bool :=
  let data := Swap data a pivot in
  let i := a + 1 in
  let j := b - 1 in
  let i := scan_up (S j - i) data a i j in
  let j := scan_down (S j - i) data a i j in
  if (j <? i)%nat then (Swap data j a, j, true)
  else
    let data := Swap data i j in
    let '(data, j) := partition_loop (b - a) data a (S i) (j - 1) in
    (Swap data j a, j, false).

(** [pdqsort_func] on a slice of thirteen elements: the pivot is the
    median of the elements a quarter, a half and three quarters of the way
    ([choosePivot_func]); when choosing it took no swap and the slice is in
    order, nothing is done; otherwise one partition, and insertion sort on
    both sides of the pivot. *)
Definition pdqsort13 (data : list A) : list A :=
  let a := 0 in
  let b := length data in
  let l := b - a in
  let '(pivot, swaps) := median data (a + l / 4 * 1) (a + l / 4 * 2) (a + l / 4 * 3) 0 in
  if (swaps =? 0)%nat && (scan_sorted (b - a) data (a + 1) b =? b)%nat then data
  else
    let '(data, mid, _) := partition data a b pivot in
    (Reference.insertionSort less (take mid data) ++ take 1 (drop mid data)
     ++ Reference.insertionSort less (drop (S mid) data))%list.

Definition sort (data : list A) : list A :=
  if (length data =? 13)%nat then pdqsort13 data
  else Reference.insertionSort less data.

End Sort.
End Go119.

(** ** binary64 arithmetic and a reference [CosineSimilarity] *)
Module F64.

Definition prec : Z := 53.
Definition emax : Z := 1024.
Definition add : float64 → float64 → float64 := SFadd prec emax.
Definition mul : float64 → float64 → float64 := SFmul prec emax.
Definition div : float64 → float64 → float64 := SFdiv prec emax.
Definition sqrt : float64 → float64 := SFsqrt prec emax.
Definition zero : float64 := S754_zero false.
Definition of_Z (n : Z) : float64 := binary_normalize prec emax n 0 false.

Definition dot (a b : list float32) : float64 :=
  foldl (λ sum xy, add sum (mul xy.1 xy.2)) zero (zip a b).

(** Modelled from the spec: [utils.CosineSimilarity] (pkg/utils, not in
    the sources at hand): "dot product divided by the product of
    magnitudes; defined as 0 when either vector has zero magnitude". *)
Definition CosineSimilarity (a b : list float32) : float64 :=
  let normA := sqrt (dot a a) in
  let normB := sqrt (dot b b) in
  if SFeqb normA zero || SFeqb normB zero then zero
  else div (dot a b) (mul normA normB).

End F64.

Definition reference_utils : Utils := {| CosineSimilarity := F64.CosineSimilarity |}.

(** ** What [CosineSimilarity] is given and what it gives

    The norm that [CosineSimilarity] takes of a vector. *)
Definition magnitude (a : list float32) : float64 := F64.sqrt (F64.dot a a).

(** A value of Go's [float32]: a binary32 number in its canonical form,
    an infinity or NaN. *)
Definition is_float32 (x : float32) : Prop := valid_binary 24 128 x = true.

(** A zero of either sign. *)
Definition is_zero (x : float32) : Prop :=
  match x with S754_zero _ => True | _ => False end.

(** An infinity or NaN. *)
Definition not_finite (x : float32) : Prop :=
  match x with S754_infinity _ | S754_nan => True | _ => False end.

(** A sum of squares that no further square brings back: plus infinity
    or NaN. *)
Definition lost (x : float64) : Prop := x = S754_infinity false ∨ x = S754_nan.

(** ** An in-memory environment

    Modelled from the spec: the PostRepository, ChunkStore and
    EmbeddingJobQueue contracts (spec section 6), whose implementations
    are not in the sources at hand.  Posts and chunks are tables keyed by
    post id, the queue is a list of (post id, user id) jobs, the embedding
    model and the generation endpoint are fixed answers, and [broken]
    names the calls that fail, with their error, leaving the tables
    untouched. *)
Record Store := {
  posts : gmap string Post;
  chunks : gmap string (list Embedding);
  jobs : list (string * UUID);
  environ : gmap string string;
  embedder : string → list float32;
  endpoint : error + Response;
  broken : action → option error
}.

Definition set_posts (f : gmap string Post → gmap string Post) (w : Store) : Store :=
  {| posts := f (posts w); chunks := chunks w; jobs := jobs w; environ := environ w;
     embedder := embedder w; endpoint := endpoint w; broken := broken w |}.
Definition set_chunks (f : gmap string (list Embedding) → gmap string (list Embedding))
    (w : Store) : Store :=
  {| posts := posts w; chunks := f (chunks w); jobs := jobs w; environ := environ w;
     embedder := embedder w; endpoint := endpoint w; broken := broken w |}.
Definition set_jobs (f : list (string * UUID) → list (string * UUID)) (w : Store) : Store :=
  {| posts := posts w; chunks := chunks w; jobs := f (jobs w); environ := environ w;
     embedder := embedder w; endpoint := endpoint w; broken := broken w |}.

Definition store_handle (a : action) (w : Store) : result a * Store :=
  match a return result a * Store with
  | GetByID postID =>
      match broken w (GetByID postID) with
      | Some e => ((None, Some e), w)
      | None => ((posts w !! postID, None), w)
      end
  | Update post =>
      match broken w (Update post) with
      | Some e => (Some e, w)
      | None => (None, set_posts (insert (PostID post) post) w)
      end
  | DeleteEmbeddingsByPostID postID =>
      match broken w (DeleteEmbeddingsByPostID postID) with
      | Some e => (Some e, w)
      | None => (None, set_chunks (delete postID) w)
      end
  | GetEmbeddingByPostID postID =>
      match broken w (GetEmbeddingByPostID postID) with
      | Some e => (([], Some e), w)
      | None => ((default [] (chunks w !! postID), None), w)
      end
  | EnqueuePostEmbedding post userData =>
      match broken w (EnqueuePostEmbedding post userData) with
      | Some e => (Some e, w)
      | None => (None, set_jobs (λ q, (q ++ [(PostID post, ID userData)])%list) w)
      end
  | GetEmbedding text =>
      match broken w (GetEmbedding text) with
      | Some e => (([], Some e), w)
      | None => ((embedder w text, None), w)
      end
  | os_Getenv key => (default "" (environ w !! key), w)
  | http_Post url contentType body => (endpoint w, w)
  | fmt_Println _ => (tt, w)
  | Body_Close => (tt, w)
  | onChunk _ => (tt, w)
  end.

Definition store_env : Env := {| World := Store; handle := store_handle |}.

(** ** Sample data *)
Module Scenario.

Definition alice : User := {| ID := 1%N |}.
Definition bob : User := {| ID := 2%N |}.

(** Alice's post, with chat off, and with chat on while its embeddings
    are still being computed. *)
Definition post_off : Post :=
  {| PostID := "p1"; AuthorID := 1%N; AIChatOpen := false; AIReady := false |}.
Definition post_pending : Post :=
  {| PostID := "p1"; AuthorID := 1%N; AIChatOpen := true; AIReady := false |}.

Definition cats : Embedding :=
  {| Content := "cats are mammals"; Vector := [F64.of_Z 1; F64.of_Z 0] |}.
Definition dogs : Embedding :=
  {| Content := "dogs are loyal"; Vector := [F64.of_Z 0; F64.of_Z 1] |}.

Definition io_EOF : error := mkError "EOF".

(** A store holding [post] and its two chunks, whose generation endpoint
    answers with [body]. *)
Definition store (post : Post) (body : string) (broken : action → option error) : Store := {|
  posts := {[ "p1" := post ]};
  chunks := {[ "p1" := [cats; dogs] ]};
  jobs := [];
  environ := {[ "AI_HOST" := "http://localhost:11434"; "AI_MODEL" := "llama3" ]};
  embedder := λ _, [F64.of_Z 1; F64.of_Z 3];
  endpoint := inr {| StatusCode := 200; Body := body; BodyErr := io_EOF |};
  broken := broken
|}.

Definition healthy : action → option error := λ _, None.

(** Only [DeleteEmbeddingsByPostID] fails. *)
Definition delete_fails : action → option error :=
  λ a, match a with
       | DeleteEmbeddingsByPostID _ => Some (mkError "connection reset")
       | _ => None
       end.

(** Only [GetByID] fails. *)
Definition lookup_fails : action → option error :=
  λ a, match a with
       | GetByID _ => Some (mkError "connection refused")
       | _ => None
       end.

End Scenario.

(** A generation stream of three lines: a fragment, a line whose JSON is
    cut short, and the end marker. *)
Definition three_lines : string :=
  Reference.json "data: {'message':{'role':'assistant','content':'Dogs'}}" +:+ String LF (
  Reference.json "data: {'message':{'content':" +:+ String LF (
  "data: [DONE]" +:+ String LF "")).

Definition dog_question : string := Reference.json "{'question':'what is a dog'}".

(** A line whose text field is the empty string. *)
Definition empty_text_line : string :=
  Reference.json "data: {'message':{'content':''}}" +:+ String LF "".

(** Seven chunks; the first two have the same vector, hence the same
    score, and the last is the closest to the question. *)
Definition seven_chunks : list Embedding :=
  [ {| Content := "first"; Vector := [F64.of_Z 1; F64.of_Z 1] |};
    {| Content := "second"; Vector := [F64.of_Z 1; F64.of_Z 1] |};
    {| Content := "third"; Vector := [F64.of_Z 0; F64.of_Z 1] |};
    {| Content := "fourth"; Vector := [F64.of_Z 0; F64.of_Z 1] |};
    {| Content := "fifth"; Vector := [F64.of_Z 0; F64.of_Z 1] |};
    {| Content := "sixth"; Vector := [F64.of_Z 0; F64.of_Z 1] |};
    {| Content := "seventh"; Vector := [F64.of_Z 1; F64.of_Z 0] |} ].

(** Thirteen chunks whose scores fall from the third on, but for the
    twelfth, which is the closest of all to the question; the first two
    have the same vector, hence the same score. *)
Definition thirteen_chunks : list Embedding :=
  [ {| Content := "one"; Vector := [F64.of_Z 9; F64.of_Z 1] |};
    {| Content := "two"; Vector := [F64.of_Z 9; F64.of_Z 1] |};
    {| Content := "three"; Vector := [F64.of_Z 8; F64.of_Z 1] |};
    {| Content := "four"; Vector := [F64.of_Z 7; F64.of_Z 1] |};
    {| Content := "five"; Vector := [F64.of_Z 6; F64.of_Z 1] |};
    {| Content := "six"; Vector := [F64.of_Z 5; F64.of_Z 1] |};
    {| Content := "seven"; Vector := [F64.of_Z 4; F64.of_Z 1] |};
    {| Content := "eight"; Vector := [F64.of_Z 3; F64.of_Z 1] |};
    {| Content := "nine"; Vector := [F64.of_Z 2; F64.of_Z 1] |};
    {| Content := "ten"; Vector := [F64.of_Z 1; F64.of_Z 1] |};
    {| Content := "eleven"; Vector := [F64.of_Z 0; F64.of_Z 1] |};
    {| Content := "twelve"; Vector := [F64.of_Z 10; F64.of_Z 1] |};
    {| Content := "thirteen"; Vector := [F64.of_Z (-1); F64.of_Z 1] |} ].

(** ** The rest of the service: [CreateChat] and [ClassifyContent] *)

(** [uuid.Nil], the zero value of [uuid.UUID]. *)
Definition uuid_Nil : UUID := 0%N.

(** [models.AIResponse], a stored exchange: the four fields that
    [CreateChat] reads. *)
Module AIResponse.
Record t := {
  UserID : UUID;
  PostID : UUID;
  Prompt : string;
  Response : string
}.
End AIResponse.

(** [AIRepositoryInterface]: of its methods the service calls
    [CreateChat] alone.  A repository has a state of its own, which a call
    may change, and answers with an error or nil. *)
Record AIRepositoryInterface := {
  Repo : Type;
  AIRepo_CreateChat : AIResponse.t → Repo → option error * Repo
}.

(** [chat] is a pointer, [None] when nil; [postID] and [user] are
    parameters the body never reads. *)
Definition CreateChat (AIRepo : AIRepositoryInterface) (chat : option AIResponse.t)
    (postID : string) (user : option User) (s : Repo AIRepo) : option error * Repo AIRepo :=
  match chat with
  | None => (Some (fmt_Errorf "chat cannot be nil"), s)
  | Some chat =>
  if bool_decide (AIResponse.UserID chat = uuid_Nil)
     || bool_decide (AIResponse.PostID chat = uuid_Nil) then
    (Some (fmt_Errorf "chat must have UserID and PostID"), s)
  else if String.eqb (AIResponse.Prompt chat) "" || String.eqb (AIResponse.Response chat) "" then
    (Some (fmt_Errorf "chat must have Prompt and Response"), s)
  else AIRepo_CreateChat AIRepo chat s
  end.

(** [Intent] is a string type; [IntentClassifier] and [IntentUnknown] are
    declared elsewhere in package [ai], and the service is written against
    them. *)
Definition Intent := string.

Class Intents := {
  IntentClassifier : string → Intent;
  IntentUnknown : Intent
}.

(** [fmt.Errorf] with one [%s] verb at the end of the format. *)
Definition fmt_Errorf_s (format : string) (arg : string) : error :=
  fmt_Errorf (format +:+ arg).

Definition ClassifyContent `{Intents} (message : string) : string * option error :=
  if String.eqb message "" then ("", Some (fmt_Errorf "message cannot be empty"))
  else
    let messageType := IntentClassifier message in
    if String.eqb messageType IntentUnknown then
      ("", Some (fmt_Errorf_s "unknown message type: " messageType))
    else (messageType, None).

(** ** The origins [main] allows (backend/main.go)

    [strings.Split(s, sep)] for a separator of one byte, as in [main]:
    the pieces of [s] between the separators, one more than there are
    separators. *)
Fixpoint strings_Split (s : string) (sep : ascii) : list string :=
  match s with
  | EmptyString => [EmptyString]
  | String c s' =>
      if decide (c = sep) then EmptyString :: strings_Split s' sep
      else match strings_Split s' sep with
           | [] => [String c EmptyString]
           | piece :: pieces => String c piece :: pieces
           end
  end.

(** [var coreUrl []string] and the [if] that fills it, for the
    [cfg.AppEnv] at hand. *)
Definition coreUrl (AppEnv : string) : Prog (list string) :=
  if String.eqb AppEnv "release" then
    origins ← perform (os_Getenv "ALLOWED_ORIGINS_PROD");
    Ret (strings_Split origins ","%char)
  else
    origins ← perform (os_Getenv "ALLOWED_ORIGINS_DEV");
    Ret (strings_Split origins ","%char).

(** ** More of what the statements speak of *)

(** The post ids handed to [DeleteEmbeddingsByPostID], in order. *)
Definition delete_of (e : Event) : option string :=
  match e with ev (DeleteEmbeddingsByPostID postID) _ => Some postID | _ => None end.
Definition deleted (log : list Event) : list string := omap delete_of log.

(** The calls of [resp.Body.Close]. *)
Definition close_of (e : Event) : option unit :=
  match e with ev Body_Close _ => Some tt | _ => None end.
Definition closed (log : list Event) : list unit := omap close_of log.

Arguments deleted : simpl never.
Arguments closed : simpl never.

(** The error a call answered with; nil for the calls that have none. *)
Definition error_of (e : Event) : option error :=
  match e with
  | ev a r =>
      match a return result a → option error with
      | GetByID _ => λ r, r.2
      | Update _ => λ r, r
      | DeleteEmbeddingsByPostID _ => λ r, r
      | GetEmbeddingByPostID _ => λ r, r.2
      | EnqueuePostEmbedding _ _ => λ r, r
      | GetEmbedding _ => λ r, r.2
      | http_Post _ _ _ => λ r, match r with inl e => Some e | inr _ => None end
      | _ => λ _, None
      end r
  end.

(** Calls that write nothing: neither to the repository nor to the queue. *)
Definition reads (e : Event) : Prop :=
  match e with
  | ev (Update _) _ | ev (DeleteEmbeddingsByPostID _) _
  | ev (EnqueuePostEmbedding _ _) _ => False
  | _ => True
  end.

(** How a toggle ends: at its last call, all calls before it having
    succeeded; its error is that call's, and [true] comes with nil only. *)
Definition stops_at_first_error {E : Env}
    (out : bool * option error * World E * list Event) : Prop :=
  ∃ init last,
    log_of out = (init ++ [last])%list ∧
    Forall (λ e, error_of e = None) init ∧
    (value_of out).2 = error_of last ∧
    ((value_of out).1 = true → (value_of out).2 = None).

(** The body of the request [StreamAIResponse] posts, for the model name
    as read from the environment. *)
Definition request_body `{lib : GoLib} (models context question : string) : string :=
  json_Marshal (VMap [
    ("model", VString models);
    ("stream", VBool true);
    ("messages", VSlice [
      VMap [("role", VString "system"); ("content", VString context)];
      VMap [("role", VString "user"); ("content", VString question)]])]).

(** A chat that [CreateChat] lets through. *)
Definition valid_chat (chat : AIResponse.t) : Prop :=
  AIResponse.UserID chat ≠ uuid_Nil ∧ AIResponse.PostID chat ≠ uuid_Nil ∧
  AIResponse.Prompt chat ≠ "" ∧ AIResponse.Response chat ≠ "".

Global Instance valid_chat_dec (chat : AIResponse.t) : Decision (valid_chat chat).
Proof. unfold valid_chat. apply _. Defined.

(** A caller that hands a series of requests to [CreateChat], one after
    the other: the errors answered and the repository left. *)
Fixpoint CreateChat_each (AIRepo : AIRepositoryInterface)
    (requests : list (option AIResponse.t * string * option User)) (s : Repo AIRepo)
    : list (option error) * Repo AIRepo :=
  match requests with
  | [] => ([], s)
  | (chat, postID, user) :: requests =>
      let '(err, s1) := CreateChat AIRepo chat postID user s in
      let '(errs, s2) := CreateChat_each AIRepo requests s1 in
      (err :: errs, s2)
  end.

(** The same chats handed to the repository itself. *)
Fixpoint AIRepo_CreateChat_each (AIRepo : AIRepositoryInterface)
    (chats : list AIResponse.t) (s : Repo AIRepo) : list (option error) * Repo AIRepo :=
  match chats with
  | [] => ([], s)
  | chat :: chats =>
      let '(err, s1) := AIRepo_CreateChat AIRepo chat s in
      let '(errs, s2) := AIRepo_CreateChat_each AIRepo chats s1 in
      (err :: errs, s2)
  end.

(** A repository that keeps every exchange it is handed, in memory. *)
Definition memory_repo : AIRepositoryInterface :=
  {| Repo := list AIResponse.t;
     AIRepo_CreateChat := λ chat s, (None, (s ++ [chat])%list) |}.

(** Only [Update] fails. *)
Definition update_fails : action → option error :=
  λ a, match a with
       | Update _ => Some (mkError "deadlock detected")
       | _ => None
       end.

(** Only [GetEmbeddingByPostID] fails. *)
Definition chunks_fail : action → option error :=
  λ a, match a with
       | GetEmbeddingByPostID _ => Some (mkError "connection reset")
       | _ => None
       end.

(** A generation stream whose last line is not ended by a newline: a
    fragment line, then a fragment line cut off by the end of the body. *)
Definition cut_short : string :=
  Reference.json "data: {'message':{'content':'Dogs'}}" +:+ String LF (
  Reference.json "data: {'message':{'content':' bark'}}").

(** A chat with every field set, and one without its answer. *)
Definition chat_full : AIResponse.t :=
  {| AIResponse.UserID := 1%N; AIResponse.PostID := 7%N;
     AIResponse.Prompt := "what is a dog"; AIResponse.Response := "Dogs bark" |}.
Definition chat_unanswered : AIResponse.t :=
  {| AIResponse.UserID := 1%N; AIResponse.PostID := 7%N;
     AIResponse.Prompt := "what is a dog"; AIResponse.Response := "" |}.

(** * Properties *)

(** ** The sorts meet the contract of [sort.Slice] *)

(** [Reference.insertionSort] *)
Section InsertionSort.
Context {A : Type} (less : A → A → bool).

(** "not less than", read from the later element to the earlier one *)
Definition not_before (later earlier : A) : Prop := less later earlier = false.

Lemma insert_back_Permutation x placed :
  Reference.insert_back less x placed ≡ₚ x :: placed.
Proof.
  induction placed as [|y rest IH]; simpl; [done|].
  destruct (less x y); [|done].
  rewrite IH. apply Permutation_swap.
Qed.

Lemma foldl_insert_back_Permutation l placed :
  foldl (λ placed x, Reference.insert_back less x placed) placed l ≡ₚ l ++ placed.
Proof.
  revert placed. induction l as [|x l IH]; intros placed; simpl; [done|].
  rewrite IH, insert_back_Permutation. by rewrite Permutation_middle.
Qed.

Lemma insertionSort_Permutation l : Reference.insertionSort less l ≡ₚ l.
Proof.
  unfold Reference.insertionSort.
  rewrite reverse_Permutation, foldl_insert_back_Permutation.
  by rewrite app_nil_r.
Qed.

Lemma insert_back_Sorted l x placed :
  transitive_ordering less l → x ∈ l → placed ⊆ l →
  Sorted not_before placed → Sorted not_before (Reference.insert_back less x placed).
Proof.
  intros (Hirr & Htrans & _) Hx. induction placed as [|y rest IH]; simpl.
  { intros _ _. repeat constructor. }
  intros Hsub Hsorted.
  assert (Hy : y ∈ l) by (apply Hsub; left).
  destruct (less x y) eqn:Hxy; [|by constructor; [|constructor]].
  assert (Hyx : not_before y x).
  { unfold not_before. destruct (less y x) eqn:Hyx; [|done].
    rewrite <-(Hirr x Hx). symmetry. by apply (Htrans x y x). }
  apply Sorted_inv in Hsorted as [Hrest Hhd].
  constructor.
  - apply IH; [|done]. intros z Hz. apply Hsub. by right.
  - destruct rest as [|z rest]; simpl; [by constructor|].
    destruct (less x z); constructor; [|done].
    by apply HdRel_inv in Hhd.
Qed.

Lemma foldl_insert_back_Sorted l l' placed :
  transitive_ordering less l → l' ⊆ l → placed ⊆ l →
  Sorted not_before placed →
  Sorted not_before (foldl (λ placed x, Reference.insert_back less x placed) placed l').
Proof.
  intros Hord. revert placed. induction l' as [|x l' IH]; intros placed Hl' Hp Hs; simpl; [done|].
  apply IH.
  - intros z Hz. apply Hl'. by right.
  - intros z Hz. rewrite insert_back_Permutation in Hz.
    apply elem_of_cons in Hz as [->|Hz]; [apply Hl'; left|by apply Hp].
  - apply insert_back_Sorted with l; [done| |done|done]. apply Hl'. left.
Qed.

Lemma Sorted_lookup_succ (R : A → A → Prop) l i a b :
  Sorted R l → l !! i = Some a → l !! S i = Some b → R a b.
Proof.
  intros Hs. revert i. induction Hs as [|x l Hs IH Hhd]; intros i; [done|].
  destruct i as [|i]; simpl.
  - intros [= ->] Hb. destruct Hhd as [|y l Hxy]; simpl in *; [done|]. by injection Hb as ->.
  - apply IH.
Qed.

Lemma insertionSort_IsSorted l :
  transitive_ordering less l → IsSorted less (Reference.insertionSort less l).
Proof.
  intros Hord i x y Hx Hy. unfold Reference.insertionSort in *.
  set (placed := foldl _ _ _) in *.
  assert (Hs : Sorted not_before placed).
  { apply foldl_insert_back_Sorted with l; [done|done|set_solver|constructor]. }
  assert (Hlen : S i < length placed).
  { apply lookup_lt_Some in Hy. by rewrite length_reverse in Hy. }
  rewrite reverse_lookup in Hx by lia.
  rewrite reverse_lookup in Hy by lia.
  apply (Sorted_lookup_succ not_before placed (length placed - S (S i)) y x Hs Hy).
  rewrite <-Hx. f_equal. lia.
Qed.

End InsertionSort.

(** The reference library: the functions above, with insertion sort as
    [sort.Slice]. *)
Definition reference_lib : GoLib := {|
  json_Unmarshal_AskRequest := Reference.Unmarshal_AskRequest;
  json_Unmarshal_map := Reference.Unmarshal_map;
  json_Marshal := Reference.encode;
  bytes_TrimSpace := Reference.TrimSpace;
  sort_Slice := @Reference.insertionSort;
  sort_Slice_Permutation := @insertionSort_Permutation;
  sort_Slice_IsSorted := @insertionSort_IsSorted
|}.

(** [Go118.sort] *)
Lemma shell_pairs_Permutation {A} (less : A → A → bool) (front back : list A) :
  let '(f, b) := Go118.shell_pairs less front back in
  (f ++ b ≡ₚ front ++ back)%list.
Proof.
  revert back. induction front as [|x front IH]; intros [|y back]; simpl; try done.
  specialize (IH back). destruct (Go118.shell_pairs less front back) as [f b].
  destruct (less y x); simpl.
  - rewrite <-!Permutation_middle, IH. apply Permutation_swap.
  - by rewrite <-!Permutation_middle, IH.
Qed.

Lemma shell_pass_Permutation {A} (less : A → A → bool) (l : list A) :
  Go118.shell_pass less l ≡ₚ l.
Proof.
  unfold Go118.shell_pass.
  pose proof (shell_pairs_Permutation less (take 6 l) (drop 6 l)) as H.
  destruct (Go118.shell_pairs less (take 6 l) (drop 6 l)) as [f b].
  by rewrite H, take_drop.
Qed.

Lemma Go118_sort_Permutation {A} (less : A → A → bool) (l : list A) :
  Go118.sort less l ≡ₚ l.
Proof.
  unfold Go118.sort. destruct (_ <=? _)%nat.
  - by rewrite insertionSort_Permutation, shell_pass_Permutation.
  - apply insertionSort_Permutation.
Qed.

Lemma Go118_sort_IsSorted {A} (less : A → A → bool) (l : list A) :
  transitive_ordering less l → IsSorted less (Go118.sort less l).
Proof.
  intros Hord. unfold Go118.sort. destruct (_ <=? _)%nat.
  - apply insertionSort_IsSorted.
    destruct Hord as (Hirr & Htrans & Hneg).
    split_and!; intros *; rewrite ?shell_pass_Permutation; eauto.
  - by apply insertionSort_IsSorted.
Qed.

Definition go118_lib : GoLib := {|
  json_Unmarshal_AskRequest := Reference.Unmarshal_AskRequest;
  json_Unmarshal_map := Reference.Unmarshal_map;
  json_Marshal := Reference.encode;
  bytes_TrimSpace := Reference.TrimSpace;
  sort_Slice := @Go118.sort;
  sort_Slice_Permutation := @Go118_sort_Permutation;
  sort_Slice_IsSorted := @Go118_sort_IsSorted
|}.

(** [Go119.sort]: swaps rearrange, the scans stop where they should, and
    the partition leaves the lesser elements before the pivot and the
    others after it, so that sorting both sides sorts the slice. *)
Section Pdqsort.
Local Close Scope string_scope.
Context {A : Type} (less : A → A → bool).
Implicit Types data : list A.

Lemma Swap_length data i j : length (Go119.Swap data i j) = length data.
Proof.
  unfold Go119.Swap. destruct (data !! i), (data !! j); try done.
  by rewrite !length_insert.
Qed.

Lemma Swap_lookup data i j k x y :
  data !! i = Some x → data !! j = Some y →
  Go119.Swap data i j !! k =
    if decide (k = i) then Some y else if decide (k = j) then Some x else data !! k.
Proof.
  intros Hi Hj. unfold Go119.Swap. rewrite Hi, Hj.
  pose proof (lookup_lt_Some _ _ _ Hi). pose proof (lookup_lt_Some _ _ _ Hj).
  case_decide as Hki.
  - subst. rewrite list_lookup_insert_eq; [done|]. by rewrite length_insert.
  - rewrite list_lookup_insert_ne by done. case_decide as Hkj.
    + subst. by rewrite list_lookup_insert_eq.
    + by rewrite list_lookup_insert_ne.
Qed.

Lemma Swap_Permutation data i j : Go119.Swap data i j ≡ₚ data.
Proof.
  destruct (data !! i) as [x|] eqn:Hi; [|by unfold Go119.Swap; rewrite Hi].
  destruct (data !! j) as [y|] eqn:Hj; [|by unfold Go119.Swap; rewrite Hi, Hj].
  apply Permutation_inj. split; [apply Swap_length|].
  exists (λ k, if decide (k = i) then j else if decide (k = j) then i else k). split.
  - intros k1 k2. repeat case_decide; intros; subst; congruence.
  - intros k. rewrite (Swap_lookup _ _ _ _ _ _ Hi Hj). repeat case_decide; subst; congruence.
Qed.

Lemma scan_up_spec fuel data a i j :
  S j - i ≤ fuel →
  let i' := Go119.scan_up less fuel data a i j in
  i ≤ i' ∧ (i ≤ S j → i' ≤ S j) ∧
  (∀ k, i ≤ k < i' → Go119.Less less data k a = true) ∧
  (i' ≤ j → Go119.Less less data i' a = false).
Proof.
  revert i. induction fuel as [|fuel IH]; intros i Hfuel; simpl.
  { split_and!; [done|done|lia|lia]. }
  destruct (Nat.leb_spec i j) as [Hij|Hij]; simpl.
  - destruct (Go119.Less less data i a) eqn:Hless.
    + destruct (IH (S i)) as (H1 & H2 & H3 & H4); [lia|].
      split_and!; [lia|lia| |done].
      intros k Hk. destruct (decide (k = i)) as [->|]; [done|]. apply H3. lia.
    + split_and!; [done|done|lia|done].
  - split_and!; [done|done|lia|lia].
Qed.

Lemma scan_down_spec fuel data a i j :
  S j - i ≤ fuel → 1 ≤ i →
  let j' := Go119.scan_down less fuel data a i j in
  j' ≤ j ∧ (i ≤ S j → i ≤ S j') ∧
  (∀ k, j' < k ≤ j → Go119.Less less data k a = false) ∧
  (i ≤ j' → Go119.Less less data j' a = true).
Proof.
  intros Hfuel Hi. revert j Hfuel. induction fuel as [|fuel IH]; intros j Hfuel; simpl.
  { split_and!; [done|done|lia|lia]. }
  destruct (Nat.leb_spec i j) as [Hij|Hij]; simpl.
  - destruct (Go119.Less less data j a) eqn:Hless; simpl.
    + split_and!; [done|done|lia|done].
    + destruct (IH (j - 1)) as (H1 & H2 & H3 & H4); [lia|].
      split_and!; [lia|lia| |done].
      intros k Hk. destruct (decide (k = j)) as [->|]; [done|]. apply H3. lia.
  - split_and!; [done|done|lia|lia].
Qed.

(** With the pivot at [a]: everything strictly between [a] and [lo] is
    less than it, nothing strictly between [hi] and [b] is. *)
Definition parted data (a lo hi b : nat) : Prop :=
  (∀ k, a < k < lo → Go119.Less less data k a = true) ∧
  (∀ k, hi < k < b → Go119.Less less data k a = false).

Lemma Less_Swap data a i j k :
  a < i → a < j → i < length data → j < length data →
  Go119.Less less (Go119.Swap data i j) k a =
    Go119.Less less data (if decide (k = i) then j else if decide (k = j) then i else k) a.
Proof.
  intros Hai Haj Hi Hj.
  destruct (lookup_lt_is_Some_2 data i Hi) as [x Hx].
  destruct (lookup_lt_is_Some_2 data j Hj) as [y Hy].
  unfold Go119.Less. rewrite !(Swap_lookup _ _ _ _ _ _ Hx Hy).
  rewrite (decide_False (P := a = i)) by lia.
  rewrite (decide_False (P := a = j)) by lia.
  repeat case_decide; subst; by rewrite ?Hx, ?Hy.
Qed.

Lemma partition_loop_spec fuel data a i j b :
  S j - i ≤ fuel → a < i → i ≤ S j → j < b → b ≤ length data →
  parted data a i j b →
  let '(data', mid) := Go119.partition_loop less fuel data a i j in
  data' ≡ₚ data ∧ data' !! a = data !! a ∧
  a ≤ mid ∧ mid < b ∧ parted data' a (S mid) mid b.
Proof.
  revert data i j. induction fuel as [|fuel IH]; intros data i j Hfuel Hai Hij Hjb Hb Hparted.
  { simpl. assert (i = S j) as -> by lia. split_and!; [done|done|lia|done|done]. }
  simpl.
  destruct (scan_up_spec (S j - i) data a i j) as (U1 & U2 & U3 & U4); [done|].
  set (i' := Go119.scan_up less (S j - i) data a i j) in *.
  destruct (scan_down_spec (S j - i') data a i' j) as (D1 & D2 & D3 & D4); [done|lia|].
  set (j' := Go119.scan_down less (S j - i') data a i' j) in *.
  destruct Hparted as [Hlo Hhi].
  destruct (Nat.ltb_spec j' i') as [Hlt|Hge].
  - split_and!; [done|done|lia|lia|]. split.
    + intros k Hk. destruct (decide (k < i)); [apply Hlo; lia|apply U3; lia].
    + intros k Hk. destruct (decide (j < k)); [apply Hhi; lia|apply D3; lia].
  - assert (Hne : i' ≠ j').
    { intros Heq. specialize (U4 ltac:(lia)). specialize (D4 ltac:(lia)).
      rewrite Heq in U4. congruence. }
    specialize (IH (Go119.Swap data i' j') (S i') (j' - 1)).
    destruct (Go119.partition_loop less fuel (Go119.Swap data i' j') a (S i') (j' - 1))
      as [data' mid].
    destruct IH as (P1 & P2 & P3 & P4 & P5); [lia|lia|lia|lia| | |].
    { rewrite Swap_length. lia. }
    { split.
      - intros k Hk. rewrite Less_Swap by lia. repeat case_decide; subst.
        + apply D4. lia.
        + lia.
        + destruct (decide (k < i)); [apply Hlo; lia|apply U3; lia].
      - intros k Hk. rewrite Less_Swap by lia. repeat case_decide; subst.
        + lia.
        + apply U4. lia.
        + destruct (decide (j < k)); [apply Hhi; lia|apply D3; lia]. }
    split_and!; [by rewrite P1, Swap_Permutation| |done|lia|done].
    rewrite P2. unfold Go119.Swap.
    destruct (data !! i') eqn:?, (data !! j') eqn:?; try done.
    rewrite !list_lookup_insert_ne by lia. done.
Qed.

Lemma partition_unroll data a b pivot :
  (Go119.partition less data a b pivot).1 =
    (let '(data', mid) :=
       Go119.partition_loop less (S (b - a)) (Go119.Swap data a pivot) a (a + 1) (b - 1) in
     (Go119.Swap data' mid a, mid)).
Proof.
  unfold Go119.partition. simpl.
  destruct (_ <? _)%nat; [done|].
  by destruct (Go119.partition_loop _ _ _ _ _ _).
Qed.

Lemma partition_spec data a b pivot :
  a < b → b ≤ length data → a ≤ pivot → pivot < b →
  let '(data', mid) := (Go119.partition less data a b pivot).1 in
  data' ≡ₚ data ∧ a ≤ mid ∧ mid < b ∧
  ∃ p, data' !! mid = Some p ∧
    (∀ k x, a ≤ k → k < mid → data' !! k = Some x → less x p = true) ∧
    (∀ k x, mid < k → k < b → data' !! k = Some x → less x p = false).
Proof.
  intros Hab Hb Hap Hpb. rewrite partition_unroll.
  pose proof (partition_loop_spec (S (b - a)) (Go119.Swap data a pivot) a (a + 1) (b - 1) b)
    as Hloop.
  destruct (Go119.partition_loop less (S (b - a)) (Go119.Swap data a pivot) a (a + 1) (b - 1))
    as [d mid].
  destruct Hloop as (P1 & P2 & P3 & P4 & [Hlo Hhi]);
    [lia|lia|lia|lia|by rewrite Swap_length| |].
  { split; intros k Hk; lia. }
  destruct (lookup_lt_is_Some_2 d a) as [p Hp].
  { rewrite P1, Swap_length. lia. }
  destruct (lookup_lt_is_Some_2 d mid) as [m Hm].
  { rewrite P1, Swap_length. lia. }
  split_and!; [by rewrite Swap_Permutation, P1, Swap_Permutation|done|done|].
  exists p. split_and!.
  - rewrite (Swap_lookup _ _ _ _ _ _ Hm Hp). by rewrite decide_True.
  - intros k x Hak Hkm. rewrite (Swap_lookup _ _ _ _ _ _ Hm Hp).
    rewrite decide_False by lia. case_decide as Hka.
    + intros [= <-]. specialize (Hlo mid ltac:(lia)).
      unfold Go119.Less in Hlo. by rewrite Hm, Hp in Hlo.
    + intros Hx. specialize (Hlo k ltac:(lia)).
      unfold Go119.Less in Hlo. by rewrite Hx, Hp in Hlo.
  - intros k x Hmk Hkb. rewrite (Swap_lookup _ _ _ _ _ _ Hm Hp).
    rewrite !decide_False by lia.
    intros Hx. specialize (Hhi k ltac:(lia)).
    unfold Go119.Less in Hhi. by rewrite Hx, Hp in Hhi.
Qed.

Lemma scan_sorted_spec fuel data i b :
  ∀ k, i ≤ k → k < Go119.scan_sorted less fuel data i b →
       Go119.Less less data k (k - 1) = false.
Proof.
  revert i. induction fuel as [|fuel IH]; intros i k Hik Hk; simpl in Hk; [lia|].
  destruct (i <? b)%nat; simpl in Hk; [|lia].
  destruct (Go119.Less less data i (i - 1)) eqn:Hless; simpl in Hk; [lia|].
  destruct (decide (k = i)) as [->|]; [done|]. apply (IH (S i)); [lia|done].
Qed.


Lemma transitive_ordering_subseteq (l l' : list A) :
  l' ⊆ l → transitive_ordering less l → transitive_ordering less l'.
Proof. intros Hsub (Hirr & Htrans & Hneg). split_and!; eauto 10. Qed.

Definition not_after (x y : A) : Prop := less y x = false.

Lemma IsSorted_Sorted (l : list A) : IsSorted less l ↔ Sorted not_after l.
Proof.
  split.
  - induction l as [|x l IH]; intros Hl; constructor.
    + apply IH. intros i a b Ha Hb. by apply (Hl (S i)).
    + destruct l as [|y l]; constructor. by apply (Hl 0).
  - intros Hl i x y Hx Hy. by apply (Sorted_lookup_succ not_after l i x y Hl).
Qed.

Lemma Sorted_app_cons (l1 l2 : list A) (p : A) :
  Sorted not_after l1 → Sorted not_after l2 →
  (∀ x, x ∈ l1 → not_after x p) → (∀ y, y ∈ l2 → not_after p y) →
  Sorted not_after (l1 ++ p :: l2).
Proof.
  intros H1 H2 Hl1 Hl2. induction H1 as [|x l1 H1 IH Hhd]; simpl.
  - constructor; [done|]. destruct l2; constructor. apply Hl2. left.
  - constructor.
    + apply IH. intros z Hz. apply Hl1. by right.
    + destruct Hhd; simpl; constructor; [|done]. apply Hl1. left.
Qed.

Lemma partition_loop_Permutation fuel data a i j :
  (Go119.partition_loop less fuel data a i j).1 ≡ₚ data.
Proof.
  revert data i j. induction fuel as [|fuel IH]; intros data i j; simpl; [done|].
  destruct (_ <? _)%nat; [done|]. by rewrite IH, Swap_Permutation.
Qed.

Lemma partition_Permutation data a b pivot :
  (Go119.partition less data a b pivot).1.1 ≡ₚ data.
Proof.
  rewrite partition_unroll.
  pose proof (partition_loop_Permutation (S (b - a)) (Go119.Swap data a pivot) a (a + 1) (b - 1))
    as Hloop.
  destruct (Go119.partition_loop _ _ _ _ _ _) as [d mid]. simpl in *.
  by rewrite Swap_Permutation, Hloop, Swap_Permutation.
Qed.

Lemma middle_split (data : list A) (mid : nat) :
  (take mid data ++ take 1 (drop mid data) ++ drop (S mid) data)%list = data.
Proof.
  rewrite <-(take_drop mid data) at 4. f_equal.
  rewrite <-(take_drop 1 (drop mid data)) at 2. f_equal.
  rewrite drop_drop. f_equal. lia.
Qed.

Lemma pdqsort13_Permutation (data : list A) : Go119.pdqsort13 less data ≡ₚ data.
Proof.
  unfold Go119.pdqsort13.
  destruct (Go119.median _ _ _ _ _ _) as [pivot swaps].
  destruct (_ && _); [done|].
  pose proof (partition_Permutation data 0 (length data) pivot) as Hperm.
  destruct (Go119.partition less data 0 (length data) pivot) as [[d mid] flag].
  simpl in Hperm. rewrite !insertionSort_Permutation, middle_split. done.
Qed.

Lemma median_among data a b c swaps :
  (Go119.median less data a b c swaps).1 ∈ [a; b; c].
Proof.
  unfold Go119.median, Go119.order2.
  repeat (destruct (Go119.Less _ _ _ _); simpl); set_solver.
Qed.

Lemma pdqsort13_IsSorted (data : list A) :
  length data = 13 → transitive_ordering less data →
  IsSorted less (Go119.pdqsort13 less data).
Proof.
  intros Hlen Hord. unfold Go119.pdqsort13. rewrite Hlen.
  pose proof (median_among data (0 + 13 / 4 * 1) (0 + 13 / 4 * 2) (0 + 13 / 4 * 3) 0) as Hin.
  destruct (Go119.median _ _ _ _ _ _) as [pivot swaps]. simpl in Hin.
  destruct (_ && _) eqn:Hsorted.
  { apply andb_true_iff in Hsorted as [_ Hscan]. apply Nat.eqb_eq in Hscan.
    intros i x y Hx Hy.
    pose proof (scan_sorted_spec (13 - 0) data (0 + 1) 13 (S i)) as Hk.
    rewrite Hscan in Hk. apply lookup_lt_Some in Hy as Hi. rewrite Hlen in Hi.
    specialize (Hk ltac:(lia) Hi). unfold Go119.Less in Hk.
    replace (S i - 1) with i in Hk by lia. by rewrite Hx, Hy in Hk. }
  pose proof (partition_spec data 0 13 pivot) as Hpart.
  pose proof (partition_Permutation data 0 13 pivot) as Hperm.
  destruct (Go119.partition less data 0 13 pivot) as [[d mid] flag]. simpl in Hpart, Hperm.
  destruct Hpart as (_ & _ & Hmid & p & Hp & Hleft & Hright); [lia|lia|lia| |].
  { set_solver by lia. }
  assert (Hordd : transitive_ordering less d).
  { apply (transitive_ordering_subseteq data); [|done]. intros z. by rewrite Hperm. }
  assert (Hone : take 1 (drop mid d) = [p]).
  { rewrite (drop_S _ _ _ Hp). done. }
  rewrite Hone. apply IsSorted_Sorted. apply Sorted_app_cons.
  - apply IsSorted_Sorted, insertionSort_IsSorted.
    apply (transitive_ordering_subseteq d); [|done]. apply subseteq_take.
  - apply IsSorted_Sorted, insertionSort_IsSorted.
    apply (transitive_ordering_subseteq d); [|done]. apply subseteq_drop.
  - intros x Hx. rewrite insertionSort_Permutation in Hx.
    apply list_elem_of_lookup in Hx as [k Hk].
    apply lookup_take_Some in Hk as [Hk Hkm].
    destruct Hordd as (Hirr & Htrans & _).
    assert (Hxp : less x p = true) by (apply (Hleft k); [lia|done|done]).
    unfold not_after. destruct (less p x) eqn:Hpx; [|done].
    assert (Hxd : x ∈ d) by (by eapply list_elem_of_lookup_2).
    assert (Hpd : p ∈ d) by (by eapply list_elem_of_lookup_2).
    rewrite <-(Hirr x Hxd). symmetry. by apply (Htrans x p x).
  - intros y Hy. rewrite insertionSort_Permutation in Hy.
    apply list_elem_of_lookup in Hy as [k Hk]. rewrite lookup_drop in Hk.
    apply lookup_lt_Some in Hk as Hkl. rewrite Hperm, Hlen in Hkl.
    apply (Hright (S mid + k)); [lia|lia|done].
Qed.

Lemma Go119_sort_Permutation (l : list A) : Go119.sort less l ≡ₚ l.
Proof.
  unfold Go119.sort. destruct (_ =? _)%nat.
  - apply pdqsort13_Permutation.
  - apply insertionSort_Permutation.
Qed.

Lemma Go119_sort_IsSorted (l : list A) :
  transitive_ordering less l → IsSorted less (Go119.sort less l).
Proof.
  intros Hord. unfold Go119.sort. destruct (Nat.eqb_spec (length l) 13).
  - by apply pdqsort13_IsSorted.
  - by apply insertionSort_IsSorted.
Qed.

End Pdqsort.

Definition go119_lib : GoLib := {|
  json_Unmarshal_AskRequest := Reference.Unmarshal_AskRequest;
  json_Unmarshal_map := Reference.Unmarshal_map;
  json_Marshal := Reference.encode;
  bytes_TrimSpace := Reference.TrimSpace;
  sort_Slice := @Go119.sort;
  sort_Slice_Permutation := @Go119_sort_Permutation;
  sort_Slice_IsSorted := @Go119_sort_IsSorted
|}.

(** ** The reference functions at work *)

Example TrimSpace_line :
  Reference.TrimSpace (" [DONE]" +:+ String "013" (String LF "")) = "[DONE]".
Proof. reflexivity. Qed.

Example decode_fragment :
  Reference.Unmarshal_map
    (Reference.json "{'message':{'role':'assistant','content':'Hi'},'done':false}")
  = inr [("done", VBool false);
         ("message", VMap [("content", VString "Hi"); ("role", VString "assistant")])].
Proof. reflexivity. Qed.

Example decode_malformed :
  Reference.Unmarshal_map (Reference.json "{'message':") = inl Reference.SyntaxError.
Proof. reflexivity. Qed.

Example decode_question :
  Reference.Unmarshal_AskRequest (Reference.json "{'question': 'what is a dog'}")
  = inr {| Question := "what is a dog" |}.
Proof. reflexivity. Qed.

Example encode_fragment :
  Reference.encode (VMap [("text", VString "Hi <there>")])
  = Reference.json "{'text':'Hi \u003cthere\u003e'}".
Proof. reflexivity. Qed.

Example insertionSort_stable :
  Reference.insertionSort (λ a b : nat * string, (a.1 <? b.1)%nat)
    [(2, "a"); (1, "b"); (2, "c"); (1, "d")]
  = [(1, "b"); (1, "d"); (2, "a"); (2, "c")].
Proof. reflexivity. Qed.

(** The cosine of (3, 4) with itself, in binary64, is 1. *)
Example F64_CosineSimilarity_self :
  F64.CosineSimilarity [F64.of_Z 3; F64.of_Z 4] [F64.of_Z 3; F64.of_Z 4] = F64.of_Z 1.
Proof. reflexivity. Qed.

(** In binary64 too, a zero magnitude gives zero, which is not NaN. *)
Lemma F64_CosineSimilarity_zero_magnitude (a b : list float32) :
  SFeqb (F64.sqrt (F64.dot a a)) F64.zero = true ∨
  SFeqb (F64.sqrt (F64.dot b b)) F64.zero = true →
  F64.CosineSimilarity a b = F64.zero ∧ F64.zero ≠ S754_nan.
Proof.
  intros Hzero. split; [|done]. unfold F64.CosineSimilarity.
  destruct Hzero as [-> | ->]; [done|]. by rewrite orb_true_r.
Qed.

(** ** Running programs *)
Section Running.
Context (E : Env).

Lemma run_bind {A B} (p : Prog A) (f : A → Prog B) (w : World E) :
  run E (p ≫= f) w =
    let '(a, w1, t1) := run E p w in
    let '(b, w2, t2) := run E (f a) w1 in
    (b, w2, t1 ++ t2)%list.
Proof.
  revert w. induction p as [a|a k IH]; intros w; simpl.
  - by destruct (run E (f a) w) as [[b w2] t2].
  - unfold mbind, Prog_mbind in *. simpl.
    destruct (handle E a w) as [x w1]. rewrite IH.
    destruct (run E (k x) w1) as [[a' w2] t1].
    by destruct (run E (f a') w2) as [[b w3] t2].
Qed.

Lemma run_perform (a : action) (w : World E) :
  run E (perform a) w = let '(x, w1) := handle E a w in (x, w1, [ev a x]).
Proof. simpl. by destruct (handle E a w). Qed.

Lemma log_bind {A B} (p : Prog A) (f : A → Prog B) (w : World E) :
  log_of (run E (p ≫= f) w) =
    (log_of (run E p w) ++
     log_of (run E (f (value_of (run E p w))) (world_of (run E p w))))%list.
Proof.
  rewrite run_bind. destruct (run E p w) as [[a w1] t1]. simpl.
  unfold value_of, world_of, log_of. simpl.
  by destruct (run E (f a) w1) as [[b w2] t2].
Qed.

End Running.

Lemma fragments_app (l1 l2 : list Event) :
  fragments (l1 ++ l2) = (fragments l1 ++ fragments l2)%list.
Proof. apply omap_app. Qed.

Lemma fragments_cons (e : Event) (log : list Event) :
  fragments (e :: log) =
    match fragment_of e with Some s => s :: fragments log | None => fragments log end.
Proof. done. Qed.

Lemma posted_app (l1 l2 : list Event) :
  posted (l1 ++ l2) = (posted l1 ++ posted l2)%list.
Proof. apply omap_app. Qed.

Lemma posted_cons (e : Event) (log : list Event) :
  posted (e :: log) =
    match answer_of e with Some r => r :: posted log | None => posted log end.
Proof. done. Qed.

Section ReadLoop.
Context `{lib : GoLib}.

Lemma read_loop_step (reader : Reader) :
  read_loop reader =
    match ReadBytes LF reader with
    | (line, Some _, _) =>
        perform (fmt_Println [aString "Received line:"; aString line]);; Ret tt
    | (line, None, reader') =>
        perform (fmt_Println [aString "Received line:"; aString line]);;
        handle_line line;;
        read_loop reader'
    end.
Proof.
  simp read_loop. unfold inspect.
  generalize (@eq_refl _ (ReadBytes LF reader)).
  generalize (ReadBytes LF reader) at 2 4 5.
  by intros [[line [e|]] reader'] Heq.
Qed.

End ReadLoop.

(** ** The read loop of [StreamAIResponse] *)
Section Streaming.
Context `{lib : GoLib}.

Lemma handle_line_payload (line : string) :
  handle_line line =
    match payload_text line with
    | Some content => perform (onChunk (fragment_for content))
    | None => Ret tt
    end.
Proof.
  unfold handle_line, payload_text, fragment_for.
  destruct (bytes_HasPrefix _ _); [|done].
  destruct (_ || _); [done|].
  destruct (json_Unmarshal_map _) as [e|chunk]; [done|].
  destruct (assert_map _) as [message|]; [|done].
  by destruct (assert_string _).
Qed.

Lemma split_after_lines (s : string) :
  lines s = match split_after LF s with
            | Some (line, rest) => line :: lines rest
            | None => []
            end.
Proof.
  induction s as [|c s IH]; simpl; [done|].
  case_decide; [done|]. rewrite IH.
  by destruct (split_after LF s) as [[line rest]|].
Qed.

Lemma fragments_handle_line (E : Env) (line : string) (w : World E) :
  fragments (log_of (run E (handle_line line) w)) =
    match payload_text line with Some content => [fragment_for content] | None => [] end.
Proof.
  rewrite handle_line_payload. destruct (payload_text line) as [content|]; [|done].
  rewrite (run_perform E (onChunk _) w). by destruct (handle E _ w) as [[] w1].
Qed.

Lemma fragments_read_loop (E : Env) (reader : Reader) (w : World E) :
  fragments (log_of (run E (read_loop reader) w)) =
    fragment_for <$> omap payload_text (lines (buf reader)).
Proof.
  remember (String.length (buf reader)) as n eqn:Hn.
  revert reader w Hn. induction (lt_wf n) as [n _ IH]. intros reader w ->.
  rewrite read_loop_step, split_after_lines.
  destruct (ReadBytes LF reader) as [[line err] reader'] eqn:Hread.
  pose proof Hread as Hsplit. unfold ReadBytes in Hsplit.
  destruct (split_after LF (buf reader)) as [[line' rest]|];
    injection Hsplit as <- <- <-.
  - rewrite !log_bind, !fragments_app, fragments_handle_line.
    rewrite (IH _ (ReadBytes_shorter _ _ _ _ Hread) _ _ eq_refl).
    rewrite (run_perform E (fmt_Println _) w). destruct (handle E _ w) as [[] w1]. simpl.
    by destruct (payload_text line').
  - rewrite log_bind, (run_perform E (fmt_Println _) w).
    by destruct (handle E _ w) as [[] w1].
Qed.

End Streaming.

(** ** [StreamAIResponse] as a whole *)

Section StreamAIResponse.
Context `{lib : GoLib}.

Lemma quiet_handle_line (E : Env) (line : string) (w : World E) :
  Forall quiet (log_of (run E (handle_line line) w)).
Proof.
  rewrite handle_line_payload. destruct (payload_text line) as [content|].
  - rewrite (run_perform E (onChunk _) w). destruct (handle E _ w) as [[] w1].
    by repeat constructor.
  - constructor.
Qed.

Lemma quiet_read_loop (E : Env) (reader : Reader) (w : World E) :
  Forall quiet (log_of (run E (read_loop reader) w)).
Proof.
  remember (String.length (buf reader)) as n eqn:Hn.
  revert reader w Hn. induction (lt_wf n) as [n _ IH]. intros reader w ->.
  rewrite read_loop_step.
  destruct (ReadBytes LF reader) as [[line [err|]] reader'] eqn:Hread.
  - rewrite log_bind, (run_perform E (fmt_Println _) w).
    destruct (handle E _ w) as [[] w1]. by repeat constructor.
  - rewrite !log_bind, (run_perform E (fmt_Println _) w).
    destruct (handle E _ w) as [[] w1].
    repeat apply Forall_app_2.
    + by repeat constructor.
    + apply quiet_handle_line.
    + by apply (IH _ (ReadBytes_shorter _ _ _ _ Hread) _ _ eq_refl).
Qed.

Lemma quiet_posted (log : list Event) : Forall quiet log → posted log = [].
Proof.
  induction 1 as [|[a r] log Hq _ IH]; [done|].
  destruct a; try done; exact IH.
Qed.

Lemma StreamAIResponse_outcome (E : Env) (context question : string) (w : World E) :
  let out := run E (StreamAIResponse context question) w in
  ∃ r : error + Response,
    posted (log_of out) = [r] ∧
    value_of out = match r with inl err => Some err | inr _ => None end ∧
    fragments (log_of out) =
      match r with
      | inl _ => []
      | inr resp => fragment_for <$> omap payload_text (lines (Body resp))
      end.
Proof.
  unfold StreamAIResponse. simpl.
  destruct (handle E (os_Getenv "AI_MODEL") w) as [models w1].
  destruct (handle E (os_Getenv "AI_HOST") w1) as [ollamaURL w2].
  match goal with |- context [handle E ?a w2] =>
    destruct (handle E a w2) as [r w3] end.
  exists r. destruct r as [err|resp]; simpl; [done|].
  destruct (handle E (fmt_Println _) w3) as [[] w4].
  pose proof (fragments_read_loop E (bufio_NewReader resp) w4) as Hfrag.
  pose proof (quiet_posted _ (quiet_read_loop E (bufio_NewReader resp) w4)) as Hpost.
  rewrite run_bind.
  destruct (run E (read_loop (bufio_NewReader resp)) w4) as [[[] w5] log].
  cbn [run]. destruct (handle E Body_Close w5) as [[] w6].
  unfold log_of, value_of in *. cbn [fst snd] in *.
  split_and!; [|done|].
  - rewrite !posted_cons, posted_app, Hpost. by cbn [answer_of].
  - rewrite !fragments_cons, fragments_app, Hfrag. cbn [fragment_of].
    by rewrite app_nil_r.
Qed.

End StreamAIResponse.

(** ** Toggling chat mode *)
Section Toggle.
Context (E : Env).

(** [OpenAIMode], path by path. *)
Lemma OpenAIMode_run (postID : string) (userData : User) (w w1 : World E)
    (post : option Post) (err : option error) :
  handle E (GetByID postID) w = ((post, err), w1) →
  run E (OpenAIMode postID userData) w =
    match err, post with
    | Some e, _ => ((false, Some e), w1, [ev (GetByID postID) (post, err)])
    | None, None => ((false, None), w1, [ev (GetByID postID) (post, err)])
    | None, Some p =>
        if AIChatOpen p || bool_decide (AuthorID p ≠ ID userData) then
          ((false, None), w1, [ev (GetByID postID) (post, err)])
        else
          let '(err2, w2) := handle E (EnqueuePostEmbedding p userData) w1 in
          ((bool_decide (err2 = None), err2), w2,
           [ev (GetByID postID) (post, err); ev (EnqueuePostEmbedding p userData) err2])
    end.
Proof.
  intros Hget. unfold OpenAIMode. simpl. rewrite Hget.
  destruct err as [e|]; [done|]. destruct post as [p|]; [|done].
  destruct (AIChatOpen p); [done|]. simpl.
  destruct (bool_decide (AuthorID p ≠ ID userData)); [done|]. simpl.
  destruct (handle E (EnqueuePostEmbedding p userData) w1) as [[e|] w2]; done.
Qed.

(** [DisableOpenAIMode], path by path. *)
Lemma DisableOpenAIMode_run (postID : string) (userData : User) (w w1 : World E)
    (post : option Post) (err : option error) :
  handle E (GetByID postID) w = ((post, err), w1) →
  run E (DisableOpenAIMode postID userData) w =
    match err, post with
    | Some e, _ => ((false, Some e), w1, [ev (GetByID postID) (post, err)])
    | None, None => ((false, None), w1, [ev (GetByID postID) (post, err)])
    | None, Some p =>
        if negb (AIChatOpen p) || bool_decide (AuthorID p ≠ ID userData) then
          ((false, None), w1, [ev (GetByID postID) (post, err)])
        else
          let '(err2, w2) := handle E (Update (switched_off p)) w1 in
          match err2 with
          | Some e =>
              ((false, Some e), w2,
               [ev (GetByID postID) (post, err); ev (Update (switched_off p)) err2])
          | None =>
              let '(err3, w3) := handle E (DeleteEmbeddingsByPostID postID) w2 in
              ((bool_decide (err3 = None), err3), w3,
               [ev (GetByID postID) (post, err); ev (Update (switched_off p)) err2;
                ev (DeleteEmbeddingsByPostID postID) err3])
          end
    end.
Proof.
  intros Hget. unfold DisableOpenAIMode. simpl. rewrite Hget.
  destruct err as [e|]; [done|]. destruct post as [p|]; [|done].
  destruct (AIChatOpen p); [|done]. simpl.
  destruct (bool_decide (AuthorID p ≠ ID userData)); [done|]. simpl.
  fold (switched_off p).
  destruct (handle E (Update (switched_off p)) w1) as [[e|] w2]; [done|]. simpl.
  destruct (handle E (DeleteEmbeddingsByPostID postID) w2) as [[e|] w3]; reflexivity.
Qed.

End Toggle.

Section ToggleClaims.
Context (E : Env).

(** C5. When the lookup itself does not fail, [OpenAIMode] returns
    [(false, nil)] without enqueueing anything exactly when the post does
    not exist, chat is already open, or the requester is not the author;
    otherwise it hands exactly one job to [EnqueuePostEmbedding] and, when
    that does not fail, returns [(true, nil)]. *)
Theorem OpenAIMode_noop_or_enqueue (postID : string) (userData : User)
    (w w1 : World E) (post : option Post) :
  handle E (GetByID postID) w = ((post, None), w1) →
  let out := run E (OpenAIMode postID userData) w in
  let noop :=
    post = None ∨
    ∃ p, post = Some p ∧ (AIChatOpen p = true ∨ AuthorID p ≠ ID userData) in
  ((value_of out = (false, None) ∧ enqueued (log_of out) = []) ↔ noop) ∧
  (¬ noop →
     ∃ p, post = Some p ∧ enqueued (log_of out) = [(p, userData)] ∧
       ∀ w2, handle E (EnqueuePostEmbedding p userData) w1 = (None, w2) →
             value_of out = (true, None)).
Proof.
  intros Hget out noop. subst out.
  rewrite (OpenAIMode_run E _ _ _ _ _ _ Hget).
  assert (Hskip : ∀ log : list Event, noop → enqueued log = [] →
    ((value_of ((false, None) : bool * option error, w1, log) = (false, None)
      ∧ enqueued (log_of ((false, None) : bool * option error, w1, log)) = []) ↔ noop) ∧
    (¬ noop → ∃ p, post = Some p ∧
       enqueued (log_of ((false, None) : bool * option error, w1, log)) = [(p, userData)] ∧
       ∀ w2, handle E (EnqueuePostEmbedding p userData) w1 = (None, w2) →
             value_of ((false, None) : bool * option error, w1, log) = (true, None))).
  { intros log Hnoop Hlog. split; [by split|]. by intros Hnot. }
  destruct post as [p|]; [|apply Hskip; [by left|done]].
  destruct (AIChatOpen p) eqn:Hopen; simpl.
  { apply Hskip; [right; eauto|done]. }
  case_bool_decide as Hauthor.
  { apply Hskip; [right; eauto|done]. }
  assert (Hnot : ¬ noop).
  { intros [?|(p' & [= <-] & [?|?])]; congruence. }
  destruct (handle E (EnqueuePostEmbedding p userData) w1) as [err2 w2] eqn:Henq.
  split.
  - split; [|done]. intros [_ Hnone]. discriminate Hnone.
  - intros _. exists p. split_and!; [done|done|].
    intros w2' Hok. rewrite Henq in Hok. by injection Hok as -> ->.
Qed.

(** C8. When [OpenAIMode] succeeds, all it did was look the post up and
    enqueue one job carrying the post as fetched: nothing was written to
    the post, and no [Update] was issued. *)
Theorem OpenAIMode_success_only_enqueues (postID : string) (userData : User) (w : World E) :
  let out := run E (OpenAIMode postID userData) w in
  value_of out = (true, None) →
  ∃ p, log_of out = [ev (GetByID postID) (Some p, None);
                     ev (EnqueuePostEmbedding p userData) None] ∧
       enqueued (log_of out) = [(p, userData)] ∧
       updated (log_of out) = [].
Proof.
  intros out. subst out.
  destruct (handle E (GetByID postID) w) as [[post err] w1] eqn:Hget.
  rewrite (OpenAIMode_run E _ _ _ _ _ _ Hget).
  destruct err as [e|]; [done|]. destruct post as [p|]; [|done].
  destruct (_ || _); [done|].
  destruct (handle E (EnqueuePostEmbedding p userData) w1) as [[e|] w2]; [done|].
  intros _. by exists p.
Qed.

(** C4. On the success path of [DisableOpenAIMode] (the post exists, chat
    is open, the requester is the author, and [Update] succeeds) the calls
    are, in order: the lookup, [Update] with both flags false, and
    [DeleteEmbeddingsByPostID].  Whatever the deletion answers, nothing
    follows it: when it fails, its error is returned with [false] and the
    world is the one the deletion left, the update included. *)
Theorem DisableOpenAIMode_order_and_partial_failure (postID : string)
    (userData : User) (w w1 w2 w3 : World E) (p : Post) (err : option error) :
  handle E (GetByID postID) w = ((Some p, None), w1) →
  AIChatOpen p = true →
  AuthorID p = ID userData →
  handle E (Update (switched_off p)) w1 = (None, w2) →
  handle E (DeleteEmbeddingsByPostID postID) w2 = (err, w3) →
  let out := run E (DisableOpenAIMode postID userData) w in
  log_of out = [ev (GetByID postID) (Some p, None);
                ev (Update (switched_off p)) None;
                ev (DeleteEmbeddingsByPostID postID) err] ∧
  AIChatOpen (switched_off p) = false ∧ AIReady (switched_off p) = false ∧
  world_of out = w3 ∧
  value_of out = match err with Some e => (false, Some e) | None => (true, None) end.
Proof.
  intros Hget Hopen Hauthor Hupdate Hdelete out. subst out.
  rewrite (DisableOpenAIMode_run E _ _ _ _ _ _ Hget), Hopen. simpl.
  rewrite bool_decide_false by (by intros ?). rewrite Hupdate, Hdelete.
  by destruct err.
Qed.

End ToggleClaims.

(** Alice turns chat on for her post: one job, and [(true, nil)]. *)
Lemma OpenAIMode_noop_or_enqueue_witness :
  let w := Scenario.store Scenario.post_off "" Scenario.healthy in
  let out := run store_env (OpenAIMode "p1" Scenario.alice) w in
  handle store_env (GetByID "p1") w = ((Some Scenario.post_off, None), w) ∧
  enqueued (log_of out) = [(Scenario.post_off, Scenario.alice)] ∧
  value_of out = (true, None).
Proof.
  intros w out. split; [reflexivity|].
  destruct (OpenAIMode_noop_or_enqueue store_env "p1" Scenario.alice w w
              (Some Scenario.post_off) eq_refl) as [_ Hother].
  destruct Hother as (p & Hp & Hjobs & Hvalue).
  { intros [Hnone|(p & Hp & [Hopen|Hauthor])]; [done| |].
    - by injection Hp as <-.
    - injection Hp as <-. by apply Hauthor. }
  injection Hp as <-. split; [exact Hjobs|].
  by apply (Hvalue (set_jobs (λ q, (q ++ [("p1", 1%N)])%list) w)).
Defined.

(** The same run: the log is the lookup and the job, and the store's
    posts are as before. *)
Lemma OpenAIMode_success_only_enqueues_witness :
  let w := Scenario.store Scenario.post_off "" Scenario.healthy in
  let out := run store_env (OpenAIMode "p1" Scenario.alice) w in
  value_of out = (true, None) ∧
  (∃ p, log_of out = [ev (GetByID "p1") (Some p, None);
                      ev (EnqueuePostEmbedding p Scenario.alice) None] ∧
        enqueued (log_of out) = [(p, Scenario.alice)] ∧
        updated (log_of out) = []) ∧
  posts (world_of out) = posts w.
Proof.
  intros w out. split; [reflexivity|]. split; [|reflexivity].
  exact (OpenAIMode_success_only_enqueues store_env "p1" Scenario.alice w eq_refl).
Defined.

(** Alice turns chat off while the chunk table cannot be reached: the
    flags are stored as false, the chunks are still there, and the error
    comes back. *)
Lemma DisableOpenAIMode_order_and_partial_failure_witness :
  let w := Scenario.store Scenario.post_pending "" Scenario.delete_fails in
  let w2 := set_posts (insert "p1" (switched_off Scenario.post_pending)) w in
  let out := run store_env (DisableOpenAIMode "p1" Scenario.alice) w in
  (handle store_env (GetByID "p1") w = ((Some Scenario.post_pending, None), w) ∧
   AIChatOpen Scenario.post_pending = true ∧
   AuthorID Scenario.post_pending = ID Scenario.alice ∧
   handle store_env (Update (switched_off Scenario.post_pending)) w = (None, w2) ∧
   handle store_env (DeleteEmbeddingsByPostID "p1") w2
     = (Some (mkError "connection reset"), w2)) ∧
  value_of out = (false, Some (mkError "connection reset")) ∧
  posts (world_of out) !! "p1" = Some (switched_off Scenario.post_pending) ∧
  chunks (world_of out) !! "p1" = Some [Scenario.cats; Scenario.dogs].
Proof.
  intros w w2 out. split; [by split_and!|].
  destruct (DisableOpenAIMode_order_and_partial_failure store_env "p1" Scenario.alice
              w w w2 w2 Scenario.post_pending (Some (mkError "connection reset"))
              eq_refl eq_refl eq_refl eq_refl eq_refl)
    as (Hlog & _ & _ & Hworld & Hvalue).
  fold out in Hworld, Hvalue. rewrite Hworld, Hvalue. by split_and!.
Defined.

(** ** [ChatStream] *)
Section ChatStream.
Context `{lib : GoLib} `{utils : Utils}.

Lemma gate_closed_spec (post : option Post) (err : option error) :
  gate_closed post err = true ↔
  err ≠ None ∨ post = None ∨ ∃ p, post = Some p ∧ AIChatOpen p = false.
Proof.
  unfold gate_closed. rewrite !orb_true_iff, !bool_decide_eq_true, negb_true_iff.
  destruct post as [p|]; simpl; naive_solver.
Qed.

(** [ChatStream], path by path, for a payload that parses. *)
Lemma ChatStream_run (E : Env) (postID : string) (userData : User) (prompt : string)
    (req : AskRequest) (w w1 : World E) (post : option Post) (err : option error) :
  json_Unmarshal_AskRequest prompt = inr req →
  handle E (GetByID postID) w = ((post, err), w1) →
  run E (ChatStream postID userData prompt) w =
    let e1 := ev (GetByID postID) (post, err) in
    if gate_closed post err then (Some not_available, w1, [e1])
    else
      let '(r2, w2) := handle E (GetEmbedding (Question req)) w1 in
      let e2 := ev (GetEmbedding (Question req)) r2 in
      match r2.2 with
      | Some e => (Some e, w2, [e1; e2])
      | None =>
          let '(r3, w3) := handle E (GetEmbeddingByPostID postID) w2 in
          let e3 := ev (GetEmbeddingByPostID postID) r3 in
          match r3.2 with
          | Some e => (Some e, w3, [e1; e2; e3])
          | None =>
              let '(r, w4, log) :=
                run E (StreamAIResponse (chat_context r3.1 r2.1) (Question req)) w3 in
              (r, w4, e1 :: e2 :: e3 :: log)
          end
      end.
Proof.
  intros Hparse Hget. unfold ChatStream. rewrite Hparse.
  cbn [mbind Prog_mbind Prog_bind perform run]. rewrite Hget.
  fold (gate_closed post err). destruct (gate_closed post err); [done|].
  cbn [mbind Prog_mbind Prog_bind perform run].
  destruct (handle E (GetEmbedding (Question req)) w1) as [[questionEmbedding [e|]] w2];
    [done|].
  cbn [mbind Prog_mbind Prog_bind perform run].
  destruct (handle E (GetEmbeddingByPostID postID) w2) as [[chunks [e|]] w3]; [done|].
  cbn [fst snd]. fold (chat_context chunks questionEmbedding).
  by destruct (run E (StreamAIResponse _ _) w3) as [[r w4] log].
Qed.

(** A payload that does not parse is answered before anything is called. *)
Lemma ChatStream_run_malformed (E : Env) (postID : string) (userData : User)
    (prompt : string) (e : error) (w : World E) :
  json_Unmarshal_AskRequest prompt = inl e →
  run E (ChatStream postID userData prompt) w = (Some e, w, []).
Proof. intros Hparse. unfold ChatStream. by rewrite Hparse. Qed.

End ChatStream.

Section ChatStreamClaims.
Context `{lib : GoLib} `{utils : Utils}.

Lemma topChunks_loop_take (n i : nat) (scoredChunks : list ScoredChunk)
    (topChunks : list string) :
  i + n = 3 →
  topChunks_loop n i scoredChunks topChunks =
    (topChunks ++ (Text <$> take n (drop i scoredChunks)))%list.
Proof.
  revert i topChunks. induction n as [|n IH]; intros i topChunks Hi; simpl.
  { by rewrite app_nil_r. }
  assert (Hlt : (i <? 3)%nat = true) by (apply Nat.ltb_lt; lia). rewrite Hlt. simpl.
  destruct (scoredChunks !! i) as [c|] eqn:Hc.
  - assert (Hlen : (i <? length scoredChunks)%nat = true).
    { apply Nat.ltb_lt. by eapply lookup_lt_Some. }
    rewrite Hlen, IH by lia.
    rewrite (drop_S _ _ _ Hc). simpl. by rewrite <-app_assoc.
  - apply lookup_ge_None in Hc.
    rewrite drop_ge by done. rewrite take_nil, app_nil_r.
    by destruct (i <? length scoredChunks)%nat.
Qed.

Lemma sort_chunks_Permutation (scoredChunks : list ScoredChunk) :
  sort_chunks scoredChunks ≡ₚ scoredChunks.
Proof. apply sort_Slice_Permutation. Qed.

(** C1, as the code has it.  A payload that does not parse is answered
    with the decoder's error before anything is called.  For a payload
    that parses, [ChatStream] stops with the error "post not found or AI
    not enabled", having called nothing but [GetByID] (so no fragment is
    delivered), exactly when the lookup failed, or found no post, or found
    one with [AIChatOpen] false; a post with [AIChatOpen] true passes,
    whatever [AIReady] says.  Past the gate comes retrieval, then
    generation: the question is embedded, and an error of that is
    returned; else the chunks are loaded, and an error of that is
    returned; else [StreamAIResponse] is run on the context built from the
    chunks and on the question, and its result is the result. *)
Theorem ChatStream_gate (E : Env) (postID : string) (userData : User) (prompt : string)
    (w w1 : World E) (post : option Post) (err : option error) :
  handle E (GetByID postID) w = ((post, err), w1) →
  let out := run E (ChatStream postID userData prompt) w in
  let closed := err ≠ None ∨ post = None ∨ ∃ p, post = Some p ∧ AIChatOpen p = false in
  let e1 := ev (GetByID postID) (post, err) in
  (∀ e, json_Unmarshal_AskRequest prompt = inl e → out = (Some e, w, [])) ∧
  (∀ p, post = Some p → err = None → AIChatOpen p = true → ¬ closed) ∧
  (∀ req, json_Unmarshal_AskRequest prompt = inr req →
     ((value_of out = Some not_available ∧ log_of out = [e1]) ↔ closed) ∧
     (closed → world_of out = w1 ∧ fragments (log_of out) = []) ∧
     (¬ closed →
        ∃ r2 w2,
          handle E (GetEmbedding (Question req)) w1 = (r2, w2) ∧
          let e2 := ev (GetEmbedding (Question req)) r2 in
          match r2.2 with
          | Some e => out = (Some e, w2, [e1; e2])
          | None =>
              ∃ r3 w3,
                handle E (GetEmbeddingByPostID postID) w2 = (r3, w3) ∧
                let e3 := ev (GetEmbeddingByPostID postID) r3 in
                match r3.2 with
                | Some e => out = (Some e, w3, [e1; e2; e3])
                | None =>
                    let generation :=
                      run E (StreamAIResponse (chat_context r3.1 r2.1) (Question req)) w3 in
                    value_of out = value_of generation ∧
                    world_of out = world_of generation ∧
                    log_of out = e1 :: e2 :: e3 :: log_of generation
                end
          end)).
Proof.
  intros Hget out closed e1. subst out closed e1. split_and!.
  - intros e Hparse. by apply ChatStream_run_malformed.
  - intros p -> -> Hopen [?|[?|(p' & [= <-] & ?)]]; congruence.
  - intros req Hparse.
    rewrite (ChatStream_run E _ _ _ _ _ _ _ _ Hparse Hget). cbn zeta.
    rewrite <-gate_closed_spec.
    destruct (gate_closed post err).
    { split_and!; [done|done|by intros []]. }
    destruct (handle E (GetEmbedding (Question req)) w1) as [r2 w2].
    split_and!.
    + split; [|done]. intros [_ Hlog]. exfalso. revert Hlog.
      destruct (r2.2); [done|].
      destruct (handle E (GetEmbeddingByPostID postID) w2) as [r3 w3].
      destruct (r3.2); [done|].
      by destruct (run E (StreamAIResponse _ _) w3) as [[r w4] log].
    + done.
    + intros _. exists r2, w2. split; [done|]. cbn zeta.
      destruct (r2.2) as [e|]; [done|].
      destruct (handle E (GetEmbeddingByPostID postID) w2) as [r3 w3].
      exists r3, w3. split; [done|].
      destruct (r3.2) as [e|]; [done|].
      by destruct (run E (StreamAIResponse _ _) w3) as [[r w4] log].
Qed.

(** C10. When [GetByID] itself fails, [ChatStream] drops that error and
    returns "post not found or AI not enabled", the very value it returns
    for a missing post and for a post with chat off. *)
Theorem ChatStream_lookup_error_hidden (E : Env) (postID : string) (userData : User)
    (prompt : string) (req : AskRequest) (w w1 : World E) (post : option Post) (e : error) :
  json_Unmarshal_AskRequest prompt = inr req →
  handle E (GetByID postID) w = ((post, Some e), w1) →
  let out := run E (ChatStream postID userData prompt) w in
  value_of out = Some not_available ∧
  log_of out = [ev (GetByID postID) (post, Some e)] ∧
  ∀ (E' : Env) (w' w1' : World E') (post' : option Post),
    handle E' (GetByID postID) w' = ((post', None), w1') →
    post' = None ∨ (∃ p, post' = Some p ∧ AIChatOpen p = false) →
    value_of (run E' (ChatStream postID userData prompt) w') = value_of out.
Proof.
  intros Hparse Hget out. subst out.
  rewrite (ChatStream_run E _ _ _ _ _ _ _ _ Hparse Hget). cbn zeta.
  assert (Hclosed : gate_closed post (Some e) = true).
  { apply gate_closed_spec. by left. }
  rewrite Hclosed. split_and!; [done|done|].
  intros E' w' w1' post' Hget' Hpost'.
  rewrite (ChatStream_run E' _ _ _ _ _ _ _ _ Hparse Hget'). cbn zeta.
  assert (Hclosed' : gate_closed post' None = true).
  { apply gate_closed_spec. by right. }
  by rewrite Hclosed'.
Qed.

(** C6. Once the chunks are loaded, [ChatStream] calls [StreamAIResponse]
    with a context that is the texts of the first three ranked chunks (all
    of them when there are fewer) joined by a blank line, or the fallback
    sentence when that text is empty, as it is when the post has no
    chunks; the context is never empty. *)
Theorem ChatStream_context (E : Env) (postID : string) (userData : User) (prompt : string)
    (req : AskRequest) (w w1 w2 w3 : World E) (p : Post)
    (questionEmbedding : list float32) (chunks : list Embedding) :
  json_Unmarshal_AskRequest prompt = inr req →
  handle E (GetByID postID) w = ((Some p, None), w1) →
  AIChatOpen p = true →
  handle E (GetEmbedding (Question req)) w1 = ((questionEmbedding, None), w2) →
  handle E (GetEmbeddingByPostID postID) w2 = ((chunks, None), w3) →
  let ranked := sort_chunks (score_chunks chunks questionEmbedding) in
  let top := Text <$> take 3 ranked in
  let joined := strings_Join top (String LF (String LF "")) in
  let context := if decide (joined = "") then no_context else joined in
  run E (ChatStream postID userData prompt) w =
    (let '(r, w4, log) := run E (StreamAIResponse context (Question req)) w3 in
     (r, w4, ev (GetByID postID) (Some p, None)
             :: ev (GetEmbedding (Question req)) (questionEmbedding, None)
             :: ev (GetEmbeddingByPostID postID) (chunks, None) :: log)) ∧
  length top = min 3 (length chunks) ∧
  context ≠ "" ∧
  (chunks = [] → context = no_context).
Proof.
  intros Hparse Hget Hopen Hembed Hchunks ranked top joined context.
  assert (Hcontext : chat_context chunks questionEmbedding = context).
  { unfold chat_context, build_context. rewrite topChunks_loop_take by done.
    rewrite drop_0. simpl. fold ranked top joined. subst context.
    destruct (String.eqb_spec joined ""); by case_decide. }
  split_and!.
  - rewrite (ChatStream_run E _ _ _ _ _ _ _ _ Hparse Hget). cbn zeta.
    assert (Hgate : gate_closed (Some p) None = false).
    { unfold gate_closed. simpl. by rewrite Hopen. }
    rewrite Hgate, Hembed. cbn [fst snd]. rewrite Hchunks. cbn [fst snd].
    by rewrite Hcontext.
  - subst top. rewrite length_fmap, length_take. subst ranked.
    rewrite sort_chunks_Permutation. unfold score_chunks. by rewrite length_fmap.
  - subst context. by case_decide.
  - intros ->. subst context joined top ranked.
    assert (Hnil : sort_chunks (score_chunks [] questionEmbedding) = []).
    { apply Permutation_nil_r. apply sort_chunks_Permutation. }
    by rewrite Hnil.
Qed.

End ChatStreamClaims.

(** Bob asks about Alice's post while its embeddings are pending
    ([AIReady] false): the question is embedded, the chunks are loaded,
    the model is asked and its fragment is delivered. *)
Lemma ChatStream_gate_witness :
  let w := Scenario.store Scenario.post_pending three_lines Scenario.healthy in
  let out := run store_env
    (ChatStream (lib:=reference_lib) (utils:=reference_utils) "p1" Scenario.bob dog_question) w in
  handle store_env (GetByID "p1") w = ((Some Scenario.post_pending, None), w) ∧
  (json_Unmarshal_AskRequest (GoLib:=reference_lib) dog_question
     = inr {| Question := "what is a dog" |} ∧
   AIChatOpen Scenario.post_pending = true ∧
   AIReady Scenario.post_pending = false) ∧
  (∃ r2 w2,
     handle store_env (GetEmbedding "what is a dog") w = (r2, w2) ∧
     r2.2 = None ∧
     ∃ log, log_of out = ev (GetByID "p1") (Some Scenario.post_pending, None)
                         :: ev (GetEmbedding "what is a dog") r2 :: log) ∧
  value_of out = None ∧
  fragments (log_of out) = [Reference.json "{'text':'Dogs'}"].
Proof.
  intros w out. split; [reflexivity|]. split; [by split_and!|].
  split; [|by vm_compute].
  destruct (ChatStream_gate (lib:=reference_lib) (utils:=reference_utils) store_env
              "p1" Scenario.bob dog_question w w
              (Some Scenario.post_pending) None eq_refl) as (_ & Hon & Hparsed).
  destruct (Hparsed {| Question := "what is a dog" |} eq_refl) as (_ & _ & Hopen).
  destruct Hopen as (r2 & w2 & Hembed & Hpast).
  { by apply (Hon Scenario.post_pending). }
  exists r2, w2. split; [exact Hembed|].
  injection Hembed as <- <-. split; [reflexivity|].
  cbn in Hpast. destruct Hpast as (r3 & w3 & Hchunks & Hpast).
  injection Hchunks as <- <-. cbn in Hpast. destruct Hpast as (_ & _ & Hlog).
  eexists. exact Hlog.
Defined.

(** Two inputs on which the claim fails as it is worded.  A payload that
    is not JSON, for a post that does not exist: the error is the
    decoder's, not "post not found or AI not enabled", and the post is not
    even looked up.  And a post that exists with chat on, in a store whose
    lookup fails: the error is "post not found or AI not enabled". *)
Lemma ChatStream_gate_counterexample :
  let absent := Scenario.store Scenario.post_off three_lines Scenario.healthy in
  let out1 := run store_env
    (ChatStream (lib:=reference_lib) (utils:=reference_utils) "p2" Scenario.bob "what is a dog")
    absent in
  let down := Scenario.store Scenario.post_pending three_lines Scenario.lookup_fails in
  let out2 := run store_env
    (ChatStream (lib:=reference_lib) (utils:=reference_utils) "p1" Scenario.bob dog_question)
    down in
  (posts absent !! "p2" = None ∧
   value_of out1 = Some Reference.SyntaxError ∧
   Reference.SyntaxError ≠ not_available ∧
   log_of out1 = []) ∧
  (posts down !! "p1" = Some Scenario.post_pending ∧
   AIChatOpen Scenario.post_pending = true ∧
   value_of out2 = Some not_available).
Proof. by vm_compute. Qed.

(** The lookup fails with "connection refused"; the caller is told "post
    not found or AI not enabled". *)
Lemma ChatStream_lookup_error_hidden_witness :
  let w := Scenario.store Scenario.post_pending three_lines Scenario.lookup_fails in
  let out := run store_env
    (ChatStream (lib:=reference_lib) (utils:=reference_utils) "p1" Scenario.bob dog_question) w in
  (json_Unmarshal_AskRequest (GoLib:=reference_lib) dog_question
     = inr {| Question := "what is a dog" |} ∧
   handle store_env (GetByID "p1") w = ((None, Some (mkError "connection refused")), w)) ∧
  value_of out = Some not_available ∧
  log_of out = [ev (GetByID "p1") (None, Some (mkError "connection refused"))].
Proof.
  intros w out. split; [by split|].
  destruct (ChatStream_lookup_error_hidden (lib:=reference_lib) (utils:=reference_utils)
              store_env "p1" Scenario.bob dog_question {| Question := "what is a dog" |}
              w w None (mkError "connection refused") eq_refl eq_refl) as (Hvalue & Hlog & _).
  by split.
Defined.

(** The question is closest to the chunk about dogs, which comes first in
    the context, a blank line apart from the other chunk. *)
Lemma ChatStream_context_witness :
  let w := Scenario.store Scenario.post_pending three_lines Scenario.healthy in
  let context := "dogs are loyal" +:+ String LF (String LF "cats are mammals") in
  (json_Unmarshal_AskRequest (GoLib:=reference_lib) dog_question
     = inr {| Question := "what is a dog" |} ∧
   handle store_env (GetByID "p1") w = ((Some Scenario.post_pending, None), w) ∧
   AIChatOpen Scenario.post_pending = true ∧
   handle store_env (GetEmbedding "what is a dog") w
     = (([F64.of_Z 1; F64.of_Z 3], None), w) ∧
   handle store_env (GetEmbeddingByPostID "p1") w
     = (([Scenario.cats; Scenario.dogs], None), w)) ∧
  run store_env
    (ChatStream (lib:=reference_lib) (utils:=reference_utils) "p1" Scenario.bob dog_question) w =
    (let '(r, w4, log) :=
       run store_env (StreamAIResponse (lib:=reference_lib) context "what is a dog") w in
     (r, w4, ev (GetByID "p1") (Some Scenario.post_pending, None)
             :: ev (GetEmbedding "what is a dog") ([F64.of_Z 1; F64.of_Z 3], None)
             :: ev (GetEmbeddingByPostID "p1") ([Scenario.cats; Scenario.dogs], None)
             :: log)).
Proof.
  intros w context. split; [by split_and!|].
  destruct (ChatStream_context (lib:=reference_lib) (utils:=reference_utils) store_env
              "p1" Scenario.bob dog_question {| Question := "what is a dog" |} w w w w
              Scenario.post_pending [F64.of_Z 1; F64.of_Z 3] [Scenario.cats; Scenario.dogs]
              eq_refl eq_refl eq_refl eq_refl eq_refl) as (Hrun & _).
  exact Hrun.
Defined.

(** ** Ranking *)

Lemma SFltb_key (x y : float64) :
  x ≠ S754_nan → y ≠ S754_nan →
  SFltb x y = true ↔ key_lt (float_key x) (float_key y).
Proof.
  intros Hx Hy. unfold SFltb, SFcompare, key_lt.
  destruct x as [sx|sx| |sx mx ex], y as [sy|sy| |sy my ey]; try done;
    repeat match goal with s : bool |- _ => destruct s end; simpl;
    try (split; [done|lia]); try (split; [lia|done]).
  - change (Pos.compare_cont Eq mx my) with (mx ?= my)%positive.
    destruct (Z.compare_spec ex ey), (Pos.compare_spec mx my); simpl;
      split; (done || lia).
  - change (Pos.compare_cont Eq mx my) with (mx ?= my)%positive.
    destruct (Z.compare_spec ex ey), (Pos.compare_spec mx my); simpl;
      split; (done || lia).
Qed.

Lemma SFltb_key_false (x y : float64) :
  x ≠ S754_nan → y ≠ S754_nan →
  SFltb x y = false ↔ ¬ key_lt (float_key x) (float_key y).
Proof.
  intros Hx Hy. rewrite <-(SFltb_key x y Hx Hy). by destruct (SFltb x y).
Qed.

Section Ranking.
Context `{lib : GoLib} `{utils : Utils}.

Lemma by_score_ordering (scoredChunks : list ScoredChunk) :
  (∀ c, c ∈ scoredChunks → Score c ≠ S754_nan) →
  transitive_ordering by_score scoredChunks.
Proof.
  intros Hnan. unfold by_score, float_gt. split_and!.
  - intros x Hx. apply SFltb_key_false; auto. unfold key_lt. lia.
  - intros x y z Hx Hy Hz. rewrite !SFltb_key by auto. unfold key_lt. lia.
  - intros x y z Hx Hy Hz. rewrite !SFltb_key_false by auto. unfold key_lt. lia.
Qed.

(** From neighbours to any two positions. *)
Lemma IsSorted_lookup {A} (less : A → A → bool) (l : list A) :
  transitive_ordering less l → IsSorted less l →
  ∀ i j x y, i < j → l !! i = Some x → l !! j = Some y → less y x = false.
Proof.
  intros (_ & _ & Hneg) Hsorted i j. revert i.
  induction j as [|j IH]; intros i x y Hij Hx Hy; [lia|].
  destruct (decide (i = j)) as [->|Hne]; [by eapply Hsorted|].
  destruct (lookup_lt_is_Some_2 l j) as [z Hz].
  { apply lookup_lt_Some in Hy. lia. }
  apply (Hneg y z x).
  - by eapply list_elem_of_lookup_2.
  - by eapply list_elem_of_lookup_2.
  - by eapply list_elem_of_lookup_2.
  - by eapply Hsorted.
  - apply (IH i); [lia|done|done].
Qed.

(** C2, as the code has it.  When no score is NaN, the ranked chunks are
    the scored chunks rearranged so that no chunk has a greater score than
    one before it.  Nothing is promised about chunks with equal scores. *)
Theorem ranked_descending (chunks : list Embedding) (questionEmbedding : list float32) :
  (∀ chunk, chunk ∈ chunks →
     CosineSimilarity (Vector chunk) questionEmbedding ≠ S754_nan) →
  let scoredChunks := score_chunks chunks questionEmbedding in
  let ranked := sort_chunks scoredChunks in
  ranked ≡ₚ scoredChunks ∧
  ∀ i j ci cj, i < j → ranked !! i = Some ci → ranked !! j = Some cj →
    float_gt (Score cj) (Score ci) = false.
Proof.
  intros Hnan scoredChunks ranked.
  assert (Hperm : ranked ≡ₚ scoredChunks) by apply sort_chunks_Permutation.
  split; [done|].
  assert (Hscores : ∀ c, c ∈ scoredChunks → Score c ≠ S754_nan).
  { intros c Hc. apply list_elem_of_fmap in Hc as (chunk & -> & Hchunk). by apply Hnan. }
  assert (Hord : transitive_ordering by_score ranked).
  { apply by_score_ordering. intros c Hc. apply Hscores. by rewrite <-Hperm. }
  intros i j ci cj Hij Hi Hj.
  apply (IsSorted_lookup by_score ranked Hord) with i j; [|done..].
  apply sort_Slice_IsSorted. by apply by_score_ordering.
Qed.

End Ranking.

(** The two sample chunks, ranked for a question closest to the second. *)
Lemma ranked_descending_witness :
  let question := [F64.of_Z 1; F64.of_Z 3] in
  let ranked := sort_chunks (lib:=reference_lib)
    (score_chunks (utils:=reference_utils) [Scenario.cats; Scenario.dogs] question) in
  (∀ chunk, chunk ∈ [Scenario.cats; Scenario.dogs] →
     CosineSimilarity (Utils:=reference_utils) (Vector chunk) question ≠ S754_nan) ∧
  Text <$> ranked = ["dogs are loyal"; "cats are mammals"] ∧
  (∀ i j ci cj, i < j → ranked !! i = Some ci → ranked !! j = Some cj →
     float_gt (Score cj) (Score ci) = false).
Proof.
  intros question ranked.
  assert (Hnan : ∀ chunk, chunk ∈ [Scenario.cats; Scenario.dogs] →
     CosineSimilarity (Utils:=reference_utils) (Vector chunk) question ≠ S754_nan).
  { intros chunk Hchunk.
    apply elem_of_cons in Hchunk as [->|Hchunk]; [by vm_compute|].
    apply elem_of_cons in Hchunk as [->|Hchunk]; [by vm_compute|].
    by apply elem_of_nil in Hchunk. }
  split; [exact Hnan|]. split; [reflexivity|].
  exact (proj2 (ranked_descending (lib:=reference_lib) (utils:=reference_utils)
                  [Scenario.cats; Scenario.dogs] question Hnan)).
Defined.

(** Two rankings in which chunks of equal score change places.  With the
    sort of Go up to 1.18, of seven chunks "second" comes before "first";
    with the sort of Go from 1.19 on, of thirteen chunks "two" comes before
    "one".  In both the scores are equal and the overtaken chunk is stored
    first; a stable sort (plain insertion sort) keeps it in front, and the
    context built from the top three differs accordingly. *)
Lemma ranked_stable_counterexample :
  let question := [F64.of_Z 1; F64.of_Z 0] in
  let scored7 := score_chunks (utils:=reference_utils) seven_chunks question in
  let ranked7 := sort_chunks (lib:=go118_lib) scored7 in
  let scored13 := score_chunks (utils:=reference_utils) thirteen_chunks question in
  let ranked13 := sort_chunks (lib:=go119_lib) scored13 in
  ((Score <$> scored7 !! 0) = (Score <$> scored7 !! 1) ∧
   Text <$> ranked7
     = ["seventh"; "second"; "first"; "third"; "fourth"; "fifth"; "sixth"] ∧
   Text <$> sort_chunks (lib:=reference_lib) scored7
     = ["seventh"; "first"; "second"; "third"; "fourth"; "fifth"; "sixth"] ∧
   build_context ranked7
     = "seventh" +:+ String LF (String LF ("second" +:+ String LF (String LF "first")))) ∧
  ((Score <$> scored13 !! 0) = (Score <$> scored13 !! 1) ∧
   Text <$> ranked13
     = ["twelve"; "two"; "one"; "three"; "four"; "five"; "six"; "seven"; "eight";
        "nine"; "ten"; "eleven"; "thirteen"] ∧
   Text <$> sort_chunks (lib:=reference_lib) scored13
     = ["twelve"; "one"; "two"; "three"; "four"; "five"; "six"; "seven"; "eight";
        "nine"; "ten"; "eleven"; "thirteen"] ∧
   build_context ranked13
     = "twelve" +:+ String LF (String LF ("two" +:+ String LF (String LF "one")))).
Proof. by vm_compute. Qed.

(** ** What [StreamAIResponse] delivers and returns *)
Section StreamAIResponseClaims.
Context `{lib : GoLib}.

(** C3, as the code has it.  [StreamAIResponse] posts once; the fragments
    it hands to [onChunk] are, in order, one for each newline-terminated
    line of the response body that carries a text.  A line carries none
    when it lacks the "data: " marker, when its payload is "[DONE]", or
    when the payload is not valid JSON; it carries [content] when the
    payload decodes to an object whose "message" is an object whose
    "content" is the string [content], empty or not. *)
Theorem StreamAIResponse_fragments (E : Env) (context question : string) (w : World E) :
  let out := run E (StreamAIResponse context question) w in
  (∃ r : error + Response,
     posted (log_of out) = [r] ∧
     fragments (log_of out) =
       match r with
       | inl _ => []
       | inr resp => fragment_for <$> omap payload_text (lines (Body resp))
       end) ∧
  (∀ line, bytes_HasPrefix line "data: " = false → payload_text line = None) ∧
  (∀ line, bytes_TrimSpace (slice_from 6 line) = "[DONE]" → payload_text line = None) ∧
  (∀ line e, json_Unmarshal_map (bytes_TrimSpace (slice_from 6 line)) = inl e →
     payload_text line = None) ∧
  (∀ line chunk message content,
     bytes_HasPrefix line "data: " = true →
     bytes_TrimSpace (slice_from 6 line) ≠ "" →
     bytes_TrimSpace (slice_from 6 line) ≠ "[DONE]" →
     json_Unmarshal_map (bytes_TrimSpace (slice_from 6 line)) = inr chunk →
     map_index chunk "message" = VMap message →
     map_index message "content" = VString content →
     payload_text line = Some content).
Proof.
  intros out. split_and!.
  - destruct (StreamAIResponse_outcome E context question w) as (r & Hposted & _ & Hfrag).
    by exists r.
  - intros line Hprefix. unfold payload_text. by rewrite Hprefix.
  - intros line Hdone. unfold payload_text. rewrite Hdone.
    destruct (bytes_HasPrefix _ _); [|done]. by rewrite orb_true_r.
  - intros line e Hbad. unfold payload_text. rewrite Hbad.
    destruct (bytes_HasPrefix _ _); [|done]. by destruct (_ || _).
  - intros line chunk message content Hprefix Hraw Hdone Hjson Hmessage Hcontent.
    assert (Hlen : (String.length (bytes_TrimSpace (slice_from 6 line)) =? 0)%nat = false).
    { apply Nat.eqb_neq. by destruct (bytes_TrimSpace (slice_from 6 line)). }
    assert (Heq : bytes_Equal (bytes_TrimSpace (slice_from 6 line)) "[DONE]" = false).
    { by apply String.eqb_neq. }
    unfold payload_text. cbn zeta. rewrite Hprefix, Hlen, Heq, Hjson, Hmessage. simpl.
    by rewrite Hcontent.
Qed.

(** C9. [StreamAIResponse] posts exactly once.  When the post fails, its
    error is returned and nothing is delivered; when it succeeds, the
    function returns nil for every response: any status code, any body,
    any error ending the body. *)
Theorem StreamAIResponse_nil_after_post (E : Env) (context question : string) (w : World E) :
  let out := run E (StreamAIResponse context question) w in
  (∃ r : error + Response, posted (log_of out) = [r]) ∧
  (∀ resp : Response, posted (log_of out) = [inr resp] → value_of out = None) ∧
  (∀ err : error, posted (log_of out) = [inl err] →
     value_of out = Some err ∧ fragments (log_of out) = []).
Proof.
  intros out.
  destruct (StreamAIResponse_outcome E context question w) as (r & Hposted & Hvalue & Hfrag).
  fold out in Hposted, Hvalue, Hfrag. split_and!.
  - by exists r.
  - intros resp Hresp. rewrite Hposted in Hresp. by injection Hresp as ->.
  - intros err Herr. rewrite Hposted in Herr. by injection Herr as ->.
Qed.

End StreamAIResponseClaims.

(** The claim's own stream: of a fragment line, a line of malformed JSON
    and the end marker, only the first is delivered. *)
Lemma StreamAIResponse_fragments_witness :
  let w := Scenario.store Scenario.post_pending three_lines Scenario.healthy in
  let out := run store_env (StreamAIResponse (lib:=reference_lib) "context" "question") w in
  length (lines three_lines) = 3 ∧
  fragments (log_of out) = [Reference.json "{'text':'Dogs'}"].
Proof.
  intros w out. split; [reflexivity|].
  destruct (StreamAIResponse_fragments (lib:=reference_lib) store_env
              "context" "question" w) as [(r & Hposted & Hfrag) _].
  fold out in Hposted, Hfrag. rewrite Hfrag.
  assert (Hr : r = endpoint w) by (by injection Hposted).
  rewrite Hr. reflexivity.
Defined.

(** The stream consists of that line alone: no payload carries a non-empty
    text, and [onChunk] is still called once, with an empty text. *)
Lemma StreamAIResponse_fragments_counterexample :
  let w := Scenario.store Scenario.post_pending empty_text_line Scenario.healthy in
  let out := run store_env (StreamAIResponse (lib:=reference_lib) "context" "question") w in
  lines empty_text_line = [empty_text_line] ∧
  payload_text (lib:=reference_lib) empty_text_line = Some "" ∧
  fragments (log_of out) = [Reference.json "{'text':''}"].
Proof. by vm_compute. Qed.

(** The endpoint answers 500 with an empty body that ends in an error:
    [StreamAIResponse] returns nil and delivers nothing. *)
Lemma StreamAIResponse_nil_after_post_witness :
  let resp := {| StatusCode := 500; Body := ""; BodyErr := mkError "unexpected EOF" |} in
  let w := {|
    posts := ∅; chunks := ∅; jobs := []; environ := ∅; embedder := λ _, [];
    endpoint := inr resp; broken := Scenario.healthy |} in
  let out := run store_env (StreamAIResponse (lib:=reference_lib) "context" "question") w in
  posted (log_of out) = [inr resp] ∧
  value_of out = None ∧
  fragments (log_of out) = [].
Proof.
  intros resp w out. split; [reflexivity|]. split; [|reflexivity].
  exact (proj1 (proj2 (StreamAIResponse_nil_after_post (lib:=reference_lib) store_env
                         "context" "question" w)) resp eq_refl).
Defined.

(** ** Cosine similarity in binary64 *)

(** A number divided by itself is exactly 1. *)
Lemma F64_div_diag (s : bool) (m : positive) (e : Z) :
  F64.div (S754_finite s m e) (S754_finite s m e) = F64.of_Z 1.
Proof.
  unfold F64.div, SFdiv, SFdiv_core_binary.
  replace (Zdigits2 (Z.pos m) + e - (Zdigits2 (Z.pos m) + e))%Z with 0%Z by lia.
  replace (e - e)%Z with 0%Z by lia.
  change (Z.min (fexp F64.prec F64.emax 0) 0) with (-53)%Z.
  change (0 - -53)%Z with 53%Z. cbv iota.
  assert (Hdiv : Z.div_eucl (Z.shiftl (Z.pos m) 53) (Z.pos m) = (2 ^ 53, 0)%Z).
  { rewrite Z.shiftl_mul_pow2 by done.
    assert (H1 : (Z.pos m * 2 ^ 53 / Z.pos m = 2 ^ 53)%Z).
    { rewrite Z.mul_comm. by apply Z.div_mul. }
    assert (H2 : ((Z.pos m * 2 ^ 53) mod Z.pos m = 0)%Z).
    { rewrite Z.mul_comm. by apply Z.mod_mul. }
    unfold Z.div, Z.modulo in H1, H2.
    destruct (Z.div_eucl (Z.pos m * 2 ^ 53) (Z.pos m)) as [q r]. by subst. }
  rewrite Hdiv.
  assert (Hloc : new_location (Z.pos m) 0 = loc_Exact).
  { unfold new_location. by destruct (Z.even (Z.pos m)). }
  rewrite Hloc. by destruct s; vm_compute.
Qed.

(** Rounding keeps the sign. *)
Lemma binary_round_aux_sign (sx : bool) (mx ex : Z) (lx : location) :
  let r := binary_round_aux F64.prec F64.emax sx mx ex lx in
  r = S754_zero sx ∨ r = S754_infinity sx ∨ r = S754_nan ∨ ∃ m e, r = S754_finite sx m e.
Proof.
  unfold binary_round_aux.
  destruct (shr_fexp _ _ mx ex lx) as [mrs' e'].
  destruct (shr_fexp _ _ _ e' loc_Exact) as [mrs'' e''].
  destruct (shr_m mrs'') as [|m|m]; [by left| |by right; right; left].
  destruct (_ <=? _)%Z; [right; right; right; by eexists _, _|right; by left].
Qed.

(** A square is not negative. *)
Lemma F64_square_sign (x : float32) :
  let r := F64.mul x x in
  r = S754_zero false ∨ r = S754_infinity false ∨ r = S754_nan ∨
  ∃ m e, r = S754_finite false m e.
Proof.
  destruct x as [s|s| |s m e]; simpl.
  - left. by destruct s.
  - right. left. by destruct s.
  - right. right. by left.
  - unfold F64.mul, SFmul. replace (xorb s s) with false by (by destruct s).
    apply binary_round_aux_sign.
Qed.

Lemma F64_square_zero (x : float32) : is_zero x → F64.mul x x = F64.zero.
Proof. by destruct x as [[]|s| |s m e]. Qed.

Lemma F64_square_not_finite (x : float32) : not_finite x → lost (F64.mul x x).
Proof. destruct x as [s|[]| |s m e]; try done; intros _; [by left|by left|by right]. Qed.

Lemma F64_add_lost_r (sum y : float64) : lost y → lost (F64.add sum y).
Proof.
  intros [-> | ->].
  - destruct sum as [s|s| |s m e]; try destruct s; (by left) || (by right).
  - right. by destruct sum.
Qed.

Lemma F64_add_lost_l (sum : float64) (x : float32) :
  lost sum → lost (F64.add sum (F64.mul x x)).
Proof.
  intros [-> | ->]; [|by right].
  destruct (F64_square_sign x) as [-> | [-> | [-> | (m & e & ->)]]];
    (by left) || (by right).
Qed.

(** Once the running sum is lost, or as soon as a component is not
    finite, the sum of squares stays lost to the end. *)
Lemma F64_dot_lost (a : list float32) (sum : float64) :
  lost sum ∨ Exists not_finite a →
  lost (foldl (λ sum xy, F64.add sum (F64.mul xy.1 xy.2)) sum (zip a a)).
Proof.
  revert sum. induction a as [|x a IH]; intros sum [Hsum|Hex]; simpl.
  - done.
  - by apply Exists_nil in Hex.
  - apply IH. left. by apply F64_add_lost_l.
  - apply IH. apply Exists_cons in Hex as [Hx|Ha]; [left|by right].
    by apply F64_add_lost_r, F64_square_not_finite.
Qed.

Lemma F64_dot_zeros (a : list float32) : Forall is_zero a → F64.dot a a = F64.zero.
Proof.
  unfold F64.dot. induction 1 as [|x a Hx _ IH]; simpl; [done|].
  by rewrite F64_square_zero.
Qed.

Lemma magnitude_zeros (a : list float32) :
  Forall is_zero a → SFeqb (magnitude a) F64.zero = true.
Proof. intros Ha. unfold magnitude. by rewrite F64_dot_zeros. Qed.

Lemma F64_dot_snoc (a b : list float32) (x y : float32) :
  length a = length b →
  F64.dot (a ++ [x]) (b ++ [y]) = F64.add (F64.dot a b) (F64.mul x y).
Proof.
  intros Hlen. unfold F64.dot. rewrite zip_with_app by done. by rewrite foldl_app.
Qed.





(** * Further properties *)

(** ** Toggling chat mode, on every path *)
Section ToggleFurther.
Context (E : Env).

(** X1. When the lookup does not fail, [DisableOpenAIMode] returns
    [(false, nil)] without writing anything exactly when the post does not
    exist, chat is already off, or the requester is not the author; in
    those cases the lookup is its only call.  Otherwise it hands [Update]
    exactly one post: the one fetched, with both flags false and its key
    and author as they were. *)
Theorem DisableOpenAIMode_noop_or_update (postID : string) (userData : User)
    (w w1 : World E) (post : option Post) :
  handle E (GetByID postID) w = ((post, None), w1) →
  let out := run E (DisableOpenAIMode postID userData) w in
  let noop :=
    post = None ∨
    ∃ p, post = Some p ∧ (AIChatOpen p = false ∨ AuthorID p ≠ ID userData) in
  ((value_of out = (false, None) ∧ updated (log_of out) = []) ↔ noop) ∧
  (noop → log_of out = [ev (GetByID postID) (post, None)] ∧ world_of out = w1) ∧
  (¬ noop →
     ∃ p p', post = Some p ∧ updated (log_of out) = [p'] ∧
       AIChatOpen p' = false ∧ AIReady p' = false ∧
       PostID p' = PostID p ∧ AuthorID p' = AuthorID p).
Proof.
  intros Hget out noop. subst out.
  rewrite (DisableOpenAIMode_run E _ _ _ _ _ _ Hget).
  assert (Hskip : noop →
    let out := ((false, None) : bool * option error, w1,
                [ev (GetByID postID) (post, None)]) in
    ((value_of out = (false, None) ∧ updated (log_of out) = []) ↔ noop) ∧
    (noop → log_of out = [ev (GetByID postID) (post, None)] ∧ world_of out = w1) ∧
    (¬ noop →
       ∃ p p', post = Some p ∧ updated (log_of out) = [p'] ∧
         AIChatOpen p' = false ∧ AIReady p' = false ∧
         PostID p' = PostID p ∧ AuthorID p' = AuthorID p)).
  { intros Hnoop. split_and!; [by split|by split|by intros Hnot]. }
  destruct post as [p|]; [|apply Hskip; by left].
  destruct (AIChatOpen p) eqn:Hopen; simpl; [|apply Hskip; right; eauto].
  case_bool_decide as Hauthor; [apply Hskip; right; eauto|].
  assert (Hnot : ¬ noop).
  { intros [?|(p' & [= <-] & [?|?])]; congruence. }
  destruct (handle E (Update (switched_off p)) w1) as [[e|] w2].
  - split_and!; [| done |].
    + split; [|done]. intros [_ Hnone]. discriminate Hnone.
    + intros _. by exists p, (switched_off p).
  - destruct (handle E (DeleteEmbeddingsByPostID postID) w2) as [err3 w3].
    split_and!; [| done |].
    + split; [|done]. intros [_ Hnone]. discriminate Hnone.
    + intros _. by exists p, (switched_off p).
Qed.

(** X2. When [Update] fails, [DisableOpenAIMode] returns its error with
    [false] and stops: [DeleteEmbeddingsByPostID] is not called, so the
    stored chunks are left alone. *)
Theorem DisableOpenAIMode_update_failure (postID : string) (userData : User)
    (w w1 w2 : World E) (p : Post) (e : error) :
  handle E (GetByID postID) w = ((Some p, None), w1) →
  AIChatOpen p = true →
  AuthorID p = ID userData →
  handle E (Update (switched_off p)) w1 = (Some e, w2) →
  let out := run E (DisableOpenAIMode postID userData) w in
  value_of out = (false, Some e) ∧
  log_of out = [ev (GetByID postID) (Some p, None); ev (Update (switched_off p)) (Some e)] ∧
  deleted (log_of out) = [] ∧
  world_of out = w2.
Proof.
  intros Hget Hopen Hauthor Hupdate out. subst out.
  rewrite (DisableOpenAIMode_run E _ _ _ _ _ _ Hget), Hopen. simpl.
  rewrite bool_decide_false by (by intros ?). by rewrite Hupdate.
Qed.

(** X3. An error of the lookup is returned as it is, with [false], by both
    [OpenAIMode] and [DisableOpenAIMode], whatever post came with it;
    nothing else is called. *)
Theorem toggle_lookup_error (postID : string) (userData : User)
    (w w1 : World E) (post : option Post) (e : error) :
  handle E (GetByID postID) w = ((post, Some e), w1) →
  run E (OpenAIMode postID userData) w
    = ((false, Some e), w1, [ev (GetByID postID) (post, Some e)]) ∧
  run E (DisableOpenAIMode postID userData) w
    = ((false, Some e), w1, [ev (GetByID postID) (post, Some e)]).
Proof.
  intros Hget.
  by rewrite (OpenAIMode_run E _ _ _ _ _ _ Hget), (DisableOpenAIMode_run E _ _ _ _ _ _ Hget).
Qed.

(** X4. On every path, [OpenAIMode] and [DisableOpenAIMode] stop at the
    first call that fails and return that call's error unchanged; they
    never return an error of their own making, and never [true] together
    with an error. *)
Theorem toggle_stops_at_first_error (postID : string) (userData : User) (w : World E) :
  stops_at_first_error (run E (OpenAIMode postID userData) w) ∧
  stops_at_first_error (run E (DisableOpenAIMode postID userData) w).
Proof.
  destruct (handle E (GetByID postID) w) as [[post err] w1] eqn:Hget.
  rewrite (OpenAIMode_run E _ _ _ _ _ _ Hget), (DisableOpenAIMode_run E _ _ _ _ _ _ Hget).
  assert (Hone : ∀ (v : bool * option error), v.2 = err → (v.1 = true → v.2 = None) →
            stops_at_first_error (v, w1, [ev (GetByID postID) (post, err)])).
  { intros v Hv Htrue. by exists [], (ev (GetByID postID) (post, err)). }
  destruct err as [e|]; [split; by apply Hone|].
  destruct post as [p|]; [|split; by apply Hone].
  split.
  - destruct (_ || _); [by apply Hone|].
    destruct (handle E (EnqueuePostEmbedding p userData) w1) as [err2 w2].
    exists [ev (GetByID postID) (Some p, None)], (ev (EnqueuePostEmbedding p userData) err2).
    split_and!; [done|by repeat constructor|done|].
    simpl. by intros ?%bool_decide_eq_true.
  - destruct (_ || _); [by apply Hone|].
    destruct (handle E (Update (switched_off p)) w1) as [[e|] w2].
    + exists [ev (GetByID postID) (Some p, None)], (ev (Update (switched_off p)) (Some e)).
      split_and!; [done|by repeat constructor|done|done].
    + destruct (handle E (DeleteEmbeddingsByPostID postID) w2) as [err3 w3].
      exists [ev (GetByID postID) (Some p, None); ev (Update (switched_off p)) None],
             (ev (DeleteEmbeddingsByPostID postID) err3).
      split_and!; [done|by repeat constructor|done|].
      simpl. by intros ?%bool_decide_eq_true.
Qed.

(** X5. What the toggles never do.  The calls of [OpenAIMode] are the
    lookup alone, or the lookup followed by one [EnqueuePostEmbedding]: it
    never calls [Update] or [DeleteEmbeddingsByPostID].  The calls of
    [DisableOpenAIMode] are the lookup alone, or the lookup followed by
    one [Update] that failed, or the lookup, one [Update] that succeeded
    and then one [DeleteEmbeddingsByPostID] of its own post: it never
    enqueues, and never deletes before a successful update.  Neither posts
    to the model nor delivers a fragment. *)
Theorem toggle_footprint (postID : string) (userData : User) (w : World E) :
  let on := log_of (run E (OpenAIMode postID userData) w) in
  let off := log_of (run E (DisableOpenAIMode postID userData) w) in
  (((∃ r, on = [ev (GetByID postID) r]) ∨
    (∃ p err, on = [ev (GetByID postID) (Some p, None);
                    ev (EnqueuePostEmbedding p userData) err])) ∧
   updated on = [] ∧ deleted on = [] ∧ (length (enqueued on) ≤ 1)%nat ∧
   posted on = [] ∧ fragments on = []) ∧
  (((∃ r, off = [ev (GetByID postID) r]) ∨
    (∃ p e, off = [ev (GetByID postID) (Some p, None);
                   ev (Update (switched_off p)) (Some e)]) ∨
    (∃ p err, off = [ev (GetByID postID) (Some p, None);
                     ev (Update (switched_off p)) None;
                     ev (DeleteEmbeddingsByPostID postID) err])) ∧
   enqueued off = [] ∧ (length (updated off) ≤ 1)%nat ∧
   (deleted off = [] ∨ deleted off = [postID] ∧ length (updated off) = 1) ∧
   posted off = [] ∧ fragments off = []).
Proof.
  destruct (handle E (GetByID postID) w) as [[post err] w1] eqn:Hget.
  rewrite (OpenAIMode_run E _ _ _ _ _ _ Hget), (DisableOpenAIMode_run E _ _ _ _ _ _ Hget).
  assert (Hon : ∀ v : bool * option error,
    let on := log_of (v, w1, [ev (GetByID postID) (post, err)]) in
    ((∃ r, on = [ev (GetByID postID) r]) ∨
     (∃ p err, on = [ev (GetByID postID) (Some p, None);
                     ev (EnqueuePostEmbedding p userData) err])) ∧
    updated on = [] ∧ deleted on = [] ∧ (length (enqueued on) ≤ 1)%nat ∧
    posted on = [] ∧ fragments on = []).
  { intros v. split_and!; [left; by eexists|..];
      (done || (unfold enqueued, updated, deleted; simpl; lia)). }
  assert (Hoff : ∀ v : bool * option error,
    let off := log_of (v, w1, [ev (GetByID postID) (post, err)]) in
    ((∃ r, off = [ev (GetByID postID) r]) ∨
     (∃ p e, off = [ev (GetByID postID) (Some p, None);
                    ev (Update (switched_off p)) (Some e)]) ∨
     (∃ p err, off = [ev (GetByID postID) (Some p, None);
                      ev (Update (switched_off p)) None;
                      ev (DeleteEmbeddingsByPostID postID) err])) ∧
    enqueued off = [] ∧ (length (updated off) ≤ 1)%nat ∧
    (deleted off = [] ∨ deleted off = [postID] ∧ length (updated off) = 1) ∧
    posted off = [] ∧ fragments off = []).
  { intros v. split_and!; [left; by eexists|..];
      (done || (unfold enqueued, updated, deleted; simpl; lia) || by left). }
  destruct err as [e|]; [split; [apply Hon|apply Hoff]|].
  destruct post as [p|]; [|split; [apply Hon|apply Hoff]].
  split.
  - destruct (_ || _); [apply Hon|].
    destruct (handle E (EnqueuePostEmbedding p userData) w1) as [err2 w2].
    split_and!; [right; by eexists _, _|..];
      (done || (unfold enqueued, updated, deleted; simpl; lia)).
  - destruct (_ || _); [apply Hoff|].
    destruct (handle E (Update (switched_off p)) w1) as [[e|] w2].
    + split_and!; [right; left; by eexists _, _|..];
        (done || (unfold enqueued, updated, deleted; simpl; lia) || by left).
    + destruct (handle E (DeleteEmbeddingsByPostID postID) w2) as [err3 w3].
      split_and!; [right; right; by eexists _, _|..];
        (done || (unfold enqueued, updated, deleted; simpl; lia) || by right).
Qed.

(** X6. [OpenAIMode] does not record that a job is under way: as long as
    the repository still shows the post with chat off, a second call
    enqueues a second job for the same post, and both calls answer
    [(true, nil)]. *)
Theorem OpenAIMode_twice_enqueues_twice (postID : string) (userData : User)
    (w w1 w2 w3 w4 : World E) (p : Post) :
  handle E (GetByID postID) w = ((Some p, None), w1) →
  AIChatOpen p = false →
  AuthorID p = ID userData →
  handle E (EnqueuePostEmbedding p userData) w1 = (None, w2) →
  handle E (GetByID postID) w2 = ((Some p, None), w3) →
  handle E (EnqueuePostEmbedding p userData) w3 = (None, w4) →
  let first := run E (OpenAIMode postID userData) w in
  let both := run E (OpenAIMode postID userData ≫= λ _, OpenAIMode postID userData) w in
  value_of first = (true, None) ∧ world_of first = w2 ∧
  value_of both = (true, None) ∧ world_of both = w4 ∧
  enqueued (log_of both) = [(p, userData); (p, userData)] ∧
  updated (log_of both) = [].
Proof.
  intros Hget Hopen Hauthor Henq Hget' Henq' first both. subst first both.
  rewrite run_bind.
  rewrite (OpenAIMode_run E _ _ _ _ _ _ Hget), Hopen. cbn [orb].
  rewrite bool_decide_false by (by intros ?). rewrite Henq. cbv beta iota zeta.
  rewrite (OpenAIMode_run E _ _ _ _ _ _ Hget'), Hopen. simpl.
  rewrite bool_decide_false by (by intros ?). by rewrite Henq'.
Qed.

(** X7. [DisableOpenAIMode] twice.  Once a call has succeeded and the
    repository shows the post as it was written, a second call finds chat
    off and does nothing: it answers [(false, nil)], and there is one
    update and one deletion in all. *)
Theorem DisableOpenAIMode_twice (postID : string) (userData : User)
    (w w1 w2 w3 w4 : World E) (p : Post) :
  handle E (GetByID postID) w = ((Some p, None), w1) →
  AIChatOpen p = true →
  AuthorID p = ID userData →
  handle E (Update (switched_off p)) w1 = (None, w2) →
  handle E (DeleteEmbeddingsByPostID postID) w2 = (None, w3) →
  handle E (GetByID postID) w3 = ((Some (switched_off p), None), w4) →
  let first := run E (DisableOpenAIMode postID userData) w in
  let both :=
    run E (DisableOpenAIMode postID userData ≫= λ _, DisableOpenAIMode postID userData) w in
  value_of first = (true, None) ∧ world_of first = w3 ∧
  value_of both = (false, None) ∧ world_of both = w4 ∧
  updated (log_of both) = [switched_off p] ∧
  deleted (log_of both) = [postID].
Proof.
  intros Hget Hopen Hauthor Hupdate Hdelete Hget' first both. subst first both.
  rewrite run_bind.
  rewrite (DisableOpenAIMode_run E _ _ _ _ _ _ Hget), Hopen. cbn [orb negb].
  rewrite bool_decide_false by (by intros ?). rewrite Hupdate, Hdelete. cbv beta iota zeta.
  by rewrite (DisableOpenAIMode_run E _ _ _ _ _ _ Hget').
Qed.

End ToggleFurther.

(** Bob tries to turn chat off for Alice's post: nothing is written. *)
Lemma DisableOpenAIMode_noop_or_update_witness :
  let w := Scenario.store Scenario.post_pending "" Scenario.healthy in
  let out := run store_env (DisableOpenAIMode "p1" Scenario.bob) w in
  handle store_env (GetByID "p1") w = ((Some Scenario.post_pending, None), w) ∧
  AuthorID Scenario.post_pending ≠ ID Scenario.bob ∧
  log_of out = [ev (GetByID "p1") (Some Scenario.post_pending, None)] ∧
  world_of out = w.
Proof.
  intros w out. split; [reflexivity|]. split; [done|].
  destruct (DisableOpenAIMode_noop_or_update store_env "p1" Scenario.bob w w
              (Some Scenario.post_pending) eq_refl) as (_ & Hnoop & _).
  apply Hnoop. right. exists Scenario.post_pending. split; [done|by right].
Defined.

(** Alice turns chat off while the posts table is locked: the error comes
    back, the post still has chat on and its chunks are still there. *)
Lemma DisableOpenAIMode_update_failure_witness :
  let w := Scenario.store Scenario.post_pending "" update_fails in
  let out := run store_env (DisableOpenAIMode "p1" Scenario.alice) w in
  (handle store_env (GetByID "p1") w = ((Some Scenario.post_pending, None), w) ∧
   AIChatOpen Scenario.post_pending = true ∧
   AuthorID Scenario.post_pending = ID Scenario.alice ∧
   handle store_env (Update (switched_off Scenario.post_pending)) w
     = (Some (mkError "deadlock detected"), w)) ∧
  value_of out = (false, Some (mkError "deadlock detected")) ∧
  deleted (log_of out) = [] ∧
  posts (world_of out) !! "p1" = Some Scenario.post_pending ∧
  chunks (world_of out) !! "p1" = Some [Scenario.cats; Scenario.dogs].
Proof.
  intros w out. split; [by split_and!|].
  destruct (DisableOpenAIMode_update_failure store_env "p1" Scenario.alice
              w w w Scenario.post_pending (mkError "deadlock detected")
              eq_refl eq_refl eq_refl eq_refl)
    as (Hvalue & _ & Hdeleted & Hworld).
  fold out in Hvalue, Hdeleted, Hworld. rewrite Hvalue, Hdeleted, Hworld. by split_and!.
Defined.

(** The repository cannot be reached: both toggles answer "connection
    refused". *)
Lemma toggle_lookup_error_witness :
  let w := Scenario.store Scenario.post_pending "" Scenario.lookup_fails in
  handle store_env (GetByID "p1") w = ((None, Some (mkError "connection refused")), w) ∧
  value_of (run store_env (OpenAIMode "p1" Scenario.alice) w)
    = (false, Some (mkError "connection refused")) ∧
  value_of (run store_env (DisableOpenAIMode "p1" Scenario.alice) w)
    = (false, Some (mkError "connection refused")).
Proof.
  intros w. split; [reflexivity|].
  destruct (toggle_lookup_error store_env "p1" Scenario.alice w w None
              (mkError "connection refused") eq_refl) as [Hon Hoff].
  by rewrite Hon, Hoff.
Defined.

(** Alice asks twice for chat on her post before the worker has run: the
    queue holds two jobs for it. *)
Lemma OpenAIMode_twice_enqueues_twice_witness :
  let w := Scenario.store Scenario.post_off "" Scenario.healthy in
  let w2 := set_jobs (λ q, (q ++ [("p1", 1%N)])%list) w in
  let w4 := set_jobs (λ q, (q ++ [("p1", 1%N)])%list) w2 in
  let both := run store_env
    (OpenAIMode "p1" Scenario.alice ≫= λ _, OpenAIMode "p1" Scenario.alice) w in
  (handle store_env (GetByID "p1") w = ((Some Scenario.post_off, None), w) ∧
   AIChatOpen Scenario.post_off = false ∧
   AuthorID Scenario.post_off = ID Scenario.alice ∧
   handle store_env (EnqueuePostEmbedding Scenario.post_off Scenario.alice) w = (None, w2) ∧
   handle store_env (GetByID "p1") w2 = ((Some Scenario.post_off, None), w2) ∧
   handle store_env (EnqueuePostEmbedding Scenario.post_off Scenario.alice) w2 = (None, w4)) ∧
  value_of both = (true, None) ∧
  jobs (world_of both) = [("p1", 1%N); ("p1", 1%N)].
Proof.
  intros w w2 w4 both. split; [by split_and!|].
  destruct (OpenAIMode_twice_enqueues_twice store_env "p1" Scenario.alice w w w2 w2 w4
              Scenario.post_off eq_refl eq_refl eq_refl eq_refl eq_refl eq_refl)
    as (_ & _ & Hvalue & Hworld & _).
  fold both in Hvalue, Hworld. by rewrite Hvalue, Hworld.
Defined.

(** Alice turns chat off twice: the second call changes nothing. *)
Lemma DisableOpenAIMode_twice_witness :
  let w := Scenario.store Scenario.post_pending "" Scenario.healthy in
  let w2 := set_posts (insert "p1" (switched_off Scenario.post_pending)) w in
  let w3 := set_chunks (delete "p1") w2 in
  let both := run store_env
    (DisableOpenAIMode "p1" Scenario.alice ≫= λ _, DisableOpenAIMode "p1" Scenario.alice) w in
  (handle store_env (GetByID "p1") w = ((Some Scenario.post_pending, None), w) ∧
   AIChatOpen Scenario.post_pending = true ∧
   AuthorID Scenario.post_pending = ID Scenario.alice ∧
   handle store_env (Update (switched_off Scenario.post_pending)) w = (None, w2) ∧
   handle store_env (DeleteEmbeddingsByPostID "p1") w2 = (None, w3) ∧
   handle store_env (GetByID "p1") w3
     = ((Some (switched_off Scenario.post_pending), None), w3)) ∧
  value_of both = (false, None) ∧
  world_of both = w3 ∧
  chunks w3 !! "p1" = None.
Proof.
  intros w w2 w3 both. split; [by split_and!|].
  destruct (DisableOpenAIMode_twice store_env "p1" Scenario.alice w w w2 w3 w3
              Scenario.post_pending eq_refl eq_refl eq_refl eq_refl eq_refl eq_refl)
    as (_ & _ & Hvalue & Hworld & _).
  fold both in Hvalue, Hworld. by rewrite Hvalue, Hworld.
Defined.

(** ** The calls of [StreamAIResponse], one by one *)

Lemma closed_app (l1 l2 : list Event) :
  closed (l1 ++ l2) = (closed l1 ++ closed l2)%list.
Proof. apply omap_app. Qed.

Lemma quiet_reads (log : list Event) : Forall quiet log → Forall reads log.
Proof. intros Hquiet. eapply Forall_impl; [exact Hquiet|]. by intros [[] r]. Qed.

Lemma quiet_closed (log : list Event) : Forall quiet log → closed log = [].
Proof.
  induction 1 as [|[a r] log Hq _ IH]; [done|].
  destruct a; try done; exact IH.
Qed.

Lemma reads_writes_nothing (log : list Event) :
  Forall reads log → updated log = [] ∧ deleted log = [] ∧ enqueued log = [].
Proof.
  induction 1 as [|[a r] log Hr _ (IH1 & IH2 & IH3)]; [done|].
  destruct a; try done; unfold updated, deleted, enqueued in *; simpl; by split_and!.
Qed.

Section StreamFurther.
Context `{lib : GoLib}.

Lemma StreamAIResponse_log (E : Env) (context question : string) (w : World E) :
  let out := run E (StreamAIResponse context question) w in
  ∃ (models ollamaURL : string) (r : error + Response) (rest : list Event),
    log_of out =
      ev (os_Getenv "AI_MODEL") models :: ev (os_Getenv "AI_HOST") ollamaURL
      :: ev (http_Post (ollamaURL +:+ "/api/generate") "application/json"
               (request_body models context question)) r
      :: rest ∧
    match r with
    | inl err => rest = [] ∧ value_of out = Some err
    | inr resp =>
        value_of out = None ∧
        ∃ loop, Forall quiet loop ∧
          rest = (ev (fmt_Println [aString "Response status:"; aInt (StatusCode resp)]) tt
                  :: loop ++ [ev Body_Close tt])%list
    end.
Proof.
  unfold StreamAIResponse. simpl.
  destruct (handle E (os_Getenv "AI_MODEL") w) as [models w1].
  destruct (handle E (os_Getenv "AI_HOST") w1) as [ollamaURL w2].
  match goal with |- context [handle E ?a w2] =>
    destruct (handle E a w2) as [r w3] end.
  exists models, ollamaURL, r. destruct r as [err|resp]; simpl; [by exists []|].
  destruct (handle E (fmt_Println _) w3) as [[] w4].
  pose proof (quiet_read_loop E (bufio_NewReader resp) w4) as Hquiet.
  rewrite run_bind.
  destruct (run E (read_loop (bufio_NewReader resp)) w4) as [[[] w5] log].
  cbn [run]. destruct (handle E Body_Close w5) as [[] w6].
  unfold log_of, value_of in *. cbn [fst snd] in *.
  eexists. split; [done|]. split; [done|]. by exists log.
Qed.

Lemma StreamAIResponse_reads (E : Env) (context question : string) (w : World E) :
  Forall reads (log_of (run E (StreamAIResponse context question) w)).
Proof.
  destruct (StreamAIResponse_log E context question w)
    as (models & ollamaURL & r & rest & -> & Hrest).
  repeat (constructor; [done|]).
  destruct r as [err|resp].
  - destruct Hrest as [-> _]. constructor.
  - destruct Hrest as (_ & loop & Hquiet & ->).
    constructor; [done|]. apply Forall_app_2; [by apply quiet_reads|by repeat constructor].
Qed.

(** X8. When the post succeeded, the calls of [StreamAIResponse] are the
    two reads of the environment, the post, the printing of the status
    line, the calls of the read loop (printing and the callback, nothing
    else) and, last of all, one closing of the response body, however the
    body ends.  When the post failed there is no body: the calls are the
    two reads of the environment and the post, so nothing is closed and
    nothing is printed. *)
Theorem StreamAIResponse_closes_body (E : Env) (context question : string) (w : World E) :
  let out := run E (StreamAIResponse context question) w in
  let request models ollamaURL r :=
    [ev (os_Getenv "AI_MODEL") models; ev (os_Getenv "AI_HOST") ollamaURL;
     ev (http_Post (ollamaURL +:+ "/api/generate") "application/json"
           (request_body models context question)) r] in
  ((∃ resp, posted (log_of out) = [inr resp]) →
     closed (log_of out) = [()] ∧ last (log_of out) = Some (ev Body_Close tt) ∧
     ∃ models ollamaURL resp loop,
       Forall quiet loop ∧
       log_of out =
         (request models ollamaURL (inr resp) ++
          ev (fmt_Println [aString "Response status:"; aInt (StatusCode resp)]) tt
          :: loop ++ [ev Body_Close tt])%list) ∧
  ((∃ err, posted (log_of out) = [inl err]) →
     closed (log_of out) = [] ∧
     ∃ models ollamaURL err, log_of out = request models ollamaURL (inl err)).
Proof.
  intros out request.
  destruct (StreamAIResponse_outcome E context question w) as (r' & Hposted & _).
  destruct (StreamAIResponse_log E context question w)
    as (models & ollamaURL & r & rest & Hlog & Hrest).
  fold out in Hposted, Hlog, Hrest.
  assert (r' = r) as ->.
  { rewrite Hlog in Hposted. rewrite !posted_cons in Hposted. cbn [answer_of] in Hposted.
    by injection Hposted. }
  rewrite Hposted, Hlog. split.
  - intros [resp [= ->]]. destruct Hrest as (_ & loop & Hquiet & ->).
    split_and!.
    + change (closed (?a :: ?b :: ?c :: ?d :: ?l)) with (closed l).
      by rewrite closed_app, (quiet_closed _ Hquiet).
    + rewrite !last_cons, last_snoc. done.
    + by exists models, ollamaURL, resp, loop.
  - intros [err [= ->]]. destruct Hrest as [-> _]. split; [done|].
    by exists models, ollamaURL, err.
Qed.

End StreamFurther.

(** ** [ChatStream] on every path *)
Section ChatStreamFurther.
Context `{lib : GoLib} `{utils : Utils}.

(** X9. [ChatStream] writes nothing: on no path does it call [Update],
    [DeleteEmbeddingsByPostID] or [EnqueuePostEmbedding], and it posts to
    the model at most once.  It does not look at the requester either:
    any user gets what the author gets. *)
Theorem ChatStream_read_only (E : Env) (postID : string) (userData : User)
    (prompt : string) (w : World E) :
  let out := run E (ChatStream postID userData prompt) w in
  Forall reads (log_of out) ∧
  updated (log_of out) = [] ∧ deleted (log_of out) = [] ∧ enqueued (log_of out) = [] ∧
  (length (posted (log_of out)) ≤ 1)%nat ∧
  ∀ other : User, run E (ChatStream postID other prompt) w = out.
Proof.
  intros out.
  assert (Hreads : Forall reads (log_of out) ∧ (length (posted (log_of out)) ≤ 1)%nat).
  { subst out. destruct (json_Unmarshal_AskRequest prompt) as [e|req] eqn:Hparse.
    { rewrite (ChatStream_run_malformed E _ _ _ _ _ Hparse). split; [constructor|].
      unfold posted. simpl. lia. }
    destruct (handle E (GetByID postID) w) as [[post err] w1] eqn:Hget.
    rewrite (ChatStream_run E _ _ _ _ _ _ _ _ Hparse Hget). cbn zeta.
    destruct (gate_closed post err).
    { split; [by repeat constructor|]. unfold posted. simpl. lia. }
    destruct (handle E (GetEmbedding (Question req)) w1) as [r2 w2].
    destruct (r2.2).
    { split; [by repeat constructor|]. unfold posted. simpl. lia. }
    destruct (handle E (GetEmbeddingByPostID postID) w2) as [r3 w3].
    destruct (r3.2).
    { split; [by repeat constructor|]. unfold posted. simpl. lia. }
    pose proof (StreamAIResponse_reads E (chat_context r3.1 r2.1) (Question req) w3) as Hr.
    destruct (StreamAIResponse_outcome E (chat_context r3.1 r2.1) (Question req) w3)
      as (r & Hposted & _).
    destruct (run E (StreamAIResponse _ _) w3) as [[v w4] log].
    unfold log_of in *. cbn [fst snd] in *. split; [by repeat (constructor; [done|])|].
    rewrite !posted_cons. cbn [answer_of]. by rewrite Hposted. }
  destruct Hreads as [Hreads Hposted].
  destruct (reads_writes_nothing _ Hreads) as (Hupdated & Hdeleted & Henqueued).
  by split_and!.
Qed.

(** X10. A caller that gets an error from [ChatStream] has been handed no
    fragment: whenever a fragment was delivered, the result is nil. *)
Theorem ChatStream_error_delivers_nothing (E : Env) (postID : string) (userData : User)
    (prompt : string) (w : World E) :
  let out := run E (ChatStream postID userData prompt) w in
  value_of out = None ∨ fragments (log_of out) = [].
Proof.
  intros out. subst out.
  destruct (json_Unmarshal_AskRequest prompt) as [e|req] eqn:Hparse.
  { rewrite (ChatStream_run_malformed E _ _ _ _ _ Hparse). by right. }
  destruct (handle E (GetByID postID) w) as [[post err] w1] eqn:Hget.
  rewrite (ChatStream_run E _ _ _ _ _ _ _ _ Hparse Hget). cbn zeta.
  destruct (gate_closed post err); [by right|].
  destruct (handle E (GetEmbedding (Question req)) w1) as [r2 w2].
  destruct (r2.2); [by right|].
  destruct (handle E (GetEmbeddingByPostID postID) w2) as [r3 w3].
  destruct (r3.2); [by right|].
  destruct (StreamAIResponse_outcome E (chat_context r3.1 r2.1) (Question req) w3)
    as (r & _ & Hvalue & Hfrag).
  destruct (run E (StreamAIResponse _ _) w3) as [[v w4] log].
  unfold log_of, value_of in *. cbn [fst snd] in *.
  rewrite !fragments_cons. cbn [fragment_of].
  destruct r as [err'|resp]; [by right|by left].
Qed.

(** X11. Unlike an error of the lookup, an error of the question's
    embedding or of loading the chunks is returned as it is.  In both
    cases [ChatStream] stops there: nothing is posted to the model and no
    fragment is delivered. *)
Theorem ChatStream_retrieval_error (E : Env) (postID : string) (userData : User)
    (prompt : string) (req : AskRequest) (w w1 : World E) (p : Post) :
  json_Unmarshal_AskRequest prompt = inr req →
  handle E (GetByID postID) w = ((Some p, None), w1) →
  AIChatOpen p = true →
  let out := run E (ChatStream postID userData prompt) w in
  (∀ questionEmbedding e w2,
     handle E (GetEmbedding (Question req)) w1 = ((questionEmbedding, Some e), w2) →
     value_of out = Some e ∧
     log_of out = [ev (GetByID postID) (Some p, None);
                   ev (GetEmbedding (Question req)) (questionEmbedding, Some e)]) ∧
  (∀ questionEmbedding w2 chunks e w3,
     handle E (GetEmbedding (Question req)) w1 = ((questionEmbedding, None), w2) →
     handle E (GetEmbeddingByPostID postID) w2 = ((chunks, Some e), w3) →
     value_of out = Some e ∧
     log_of out = [ev (GetByID postID) (Some p, None);
                   ev (GetEmbedding (Question req)) (questionEmbedding, None);
                   ev (GetEmbeddingByPostID postID) (chunks, Some e)]).
Proof.
  intros Hparse Hget Hopen out. subst out.
  rewrite (ChatStream_run E _ _ _ _ _ _ _ _ Hparse Hget). cbn zeta.
  assert (Hgate : gate_closed (Some p) None = false).
  { unfold gate_closed. simpl. by rewrite Hopen. }
  rewrite Hgate. split.
  - intros questionEmbedding e w2 Hembed. by rewrite Hembed.
  - intros questionEmbedding w2 chunks e w3 Hembed Hchunks.
    rewrite Hembed. cbn [fst snd]. by rewrite Hchunks.
Qed.

(** X12. [ChatStream] from end to end.  For a post with chat on, once the
    question is embedded and the chunks are loaded, the model is posted to
    exactly once; the fragments delivered are, in order, those of the
    newline-terminated lines of the response that carry a text, and the
    result is nil; when the post to the model fails, its error is the
    result and nothing is delivered. *)
Theorem ChatStream_end_to_end (E : Env) (postID : string) (userData : User) (prompt : string)
    (req : AskRequest) (w w1 w2 w3 : World E) (p : Post)
    (questionEmbedding : list float32) (chunks : list Embedding) :
  json_Unmarshal_AskRequest prompt = inr req →
  handle E (GetByID postID) w = ((Some p, None), w1) →
  AIChatOpen p = true →
  handle E (GetEmbedding (Question req)) w1 = ((questionEmbedding, None), w2) →
  handle E (GetEmbeddingByPostID postID) w2 = ((chunks, None), w3) →
  let out := run E (ChatStream postID userData prompt) w in
  ∃ r : error + Response,
    posted (log_of out) = [r] ∧
    value_of out = match r with inl err => Some err | inr _ => None end ∧
    fragments (log_of out) =
      match r with
      | inl _ => []
      | inr resp => fragment_for <$> omap payload_text (lines (Body resp))
      end.
Proof.
  intros Hparse Hget Hopen Hembed Hchunks out. subst out.
  rewrite (ChatStream_run E _ _ _ _ _ _ _ _ Hparse Hget). cbn zeta.
  assert (Hgate : gate_closed (Some p) None = false).
  { unfold gate_closed. simpl. by rewrite Hopen. }
  rewrite Hgate, Hembed. cbn [fst snd]. rewrite Hchunks. cbn [fst snd].
  destruct (StreamAIResponse_outcome E (chat_context chunks questionEmbedding) (Question req) w3)
    as (r & Hposted & Hvalue & Hfrag).
  destruct (run E (StreamAIResponse _ _) w3) as [[v w4] log].
  unfold log_of, value_of in *. cbn [fst snd] in *.
  exists r. rewrite !posted_cons, !fragments_cons. by cbn [answer_of fragment_of].
Qed.

(** X13. A successful [OpenAIMode] does not open chat.  It leaves the
    post as it is, so as long as the repository shows the post unchanged,
    a [ChatStream] that follows is refused with "post not found or AI not
    enabled" and delivers nothing. *)
Theorem OpenAIMode_then_ChatStream (E : Env) (postID : string) (userData asker : User)
    (prompt : string) (req : AskRequest) (w w1 w2 w3 : World E) (p : Post) :
  json_Unmarshal_AskRequest prompt = inr req →
  handle E (GetByID postID) w = ((Some p, None), w1) →
  AIChatOpen p = false →
  AuthorID p = ID userData →
  handle E (EnqueuePostEmbedding p userData) w1 = (None, w2) →
  handle E (GetByID postID) w2 = ((Some p, None), w3) →
  let out := run E (OpenAIMode postID userData ≫= λ opened,
                    ChatStream postID asker prompt ≫= λ err, Ret (opened, err)) w in
  value_of out = ((true, None), Some not_available) ∧
  enqueued (log_of out) = [(p, userData)] ∧
  fragments (log_of out) = [] ∧ posted (log_of out) = [].
Proof.
  intros Hparse Hget Hopen Hauthor Henq Hget' out. subst out.
  rewrite run_bind.
  rewrite (OpenAIMode_run E _ _ _ _ _ _ Hget), Hopen. cbn [orb].
  rewrite bool_decide_false by (by intros ?). rewrite Henq. cbv beta iota zeta.
  rewrite run_bind.
  rewrite (ChatStream_run E _ _ _ _ _ _ _ _ Hparse Hget'). cbn zeta.
  assert (Hgate : gate_closed (Some p) None = true).
  { unfold gate_closed. simpl. by rewrite Hopen. }
  by rewrite Hgate.
Qed.

(** X14. After a successful [DisableOpenAIMode], once the repository shows
    the post as it was written, [ChatStream] is refused with "post not
    found or AI not enabled" and delivers nothing. *)
Theorem DisableOpenAIMode_then_ChatStream (E : Env) (postID : string)
    (userData asker : User) (prompt : string) (req : AskRequest)
    (w w1 w2 w3 w4 : World E) (p : Post) :
  json_Unmarshal_AskRequest prompt = inr req →
  handle E (GetByID postID) w = ((Some p, None), w1) →
  AIChatOpen p = true →
  AuthorID p = ID userData →
  handle E (Update (switched_off p)) w1 = (None, w2) →
  handle E (DeleteEmbeddingsByPostID postID) w2 = (None, w3) →
  handle E (GetByID postID) w3 = ((Some (switched_off p), None), w4) →
  let out := run E (DisableOpenAIMode postID userData ≫= λ disabled,
                    ChatStream postID asker prompt ≫= λ err, Ret (disabled, err)) w in
  value_of out = ((true, None), Some not_available) ∧
  fragments (log_of out) = [] ∧ posted (log_of out) = [].
Proof.
  intros Hparse Hget Hopen Hauthor Hupdate Hdelete Hget' out. subst out.
  rewrite run_bind.
  rewrite (DisableOpenAIMode_run E _ _ _ _ _ _ Hget), Hopen. cbn [orb negb].
  rewrite bool_decide_false by (by intros ?). rewrite Hupdate, Hdelete. cbv beta iota zeta.
  rewrite run_bind.
  by rewrite (ChatStream_run E _ _ _ _ _ _ _ _ Hparse Hget').
Qed.

End ChatStreamFurther.

(** The chunk table cannot be read: the error comes back as it is. *)
Lemma ChatStream_retrieval_error_witness :
  let w := Scenario.store Scenario.post_pending three_lines chunks_fail in
  let out := run store_env
    (ChatStream (lib:=reference_lib) (utils:=reference_utils) "p1" Scenario.bob dog_question) w in
  (json_Unmarshal_AskRequest (GoLib:=reference_lib) dog_question
     = inr {| Question := "what is a dog" |} ∧
   handle store_env (GetByID "p1") w = ((Some Scenario.post_pending, None), w) ∧
   AIChatOpen Scenario.post_pending = true ∧
   handle store_env (GetEmbedding "what is a dog") w
     = (([F64.of_Z 1; F64.of_Z 3], None), w) ∧
   handle store_env (GetEmbeddingByPostID "p1") w
     = (([], Some (mkError "connection reset")), w)) ∧
  value_of out = Some (mkError "connection reset") ∧
  posted (log_of out) = [].
Proof.
  intros w out. split; [by split_and!|].
  destruct (ChatStream_retrieval_error (lib:=reference_lib) (utils:=reference_utils)
              store_env "p1" Scenario.bob dog_question {| Question := "what is a dog" |}
              w w Scenario.post_pending eq_refl eq_refl eq_refl) as [_ Hchunks].
  destruct (Hchunks [F64.of_Z 1; F64.of_Z 3] w [] (mkError "connection reset") w
              eq_refl eq_refl) as [Hvalue Hlog].
  fold out in Hvalue, Hlog. by rewrite Hvalue, Hlog.
Defined.

(** Bob asks about dogs: of the three lines the model sends, the fragment
    is delivered. *)
Lemma ChatStream_end_to_end_witness :
  let w := Scenario.store Scenario.post_pending three_lines Scenario.healthy in
  let out := run store_env
    (ChatStream (lib:=reference_lib) (utils:=reference_utils) "p1" Scenario.bob dog_question) w in
  (json_Unmarshal_AskRequest (GoLib:=reference_lib) dog_question
     = inr {| Question := "what is a dog" |} ∧
   handle store_env (GetByID "p1") w = ((Some Scenario.post_pending, None), w) ∧
   AIChatOpen Scenario.post_pending = true ∧
   handle store_env (GetEmbedding "what is a dog") w
     = (([F64.of_Z 1; F64.of_Z 3], None), w) ∧
   handle store_env (GetEmbeddingByPostID "p1") w
     = (([Scenario.cats; Scenario.dogs], None), w)) ∧
  value_of out = None ∧
  fragments (log_of out) = [Reference.json "{'text':'Dogs'}"].
Proof.
  intros w out. split; [by split_and!|].
  destruct (ChatStream_end_to_end (lib:=reference_lib) (utils:=reference_utils) store_env
              "p1" Scenario.bob dog_question {| Question := "what is a dog" |} w w w w
              Scenario.post_pending [F64.of_Z 1; F64.of_Z 3] [Scenario.cats; Scenario.dogs]
              eq_refl eq_refl eq_refl eq_refl eq_refl) as (r & Hposted & Hvalue & Hfrag).
  fold out in Hposted, Hvalue, Hfrag.
  assert (Hr : r = endpoint w) by (by injection Hposted).
  rewrite Hvalue, Hfrag, Hr. by split.
Defined.

(** Alice turns chat on and Bob asks at once: he is refused. *)
Lemma OpenAIMode_then_ChatStream_witness :
  let w := Scenario.store Scenario.post_off three_lines Scenario.healthy in
  let w2 := set_jobs (λ q, (q ++ [("p1", 1%N)])%list) w in
  let out := run store_env
    (OpenAIMode "p1" Scenario.alice ≫= λ opened,
     ChatStream (lib:=reference_lib) (utils:=reference_utils) "p1" Scenario.bob dog_question
       ≫= λ err, Ret (opened, err)) w in
  (json_Unmarshal_AskRequest (GoLib:=reference_lib) dog_question
     = inr {| Question := "what is a dog" |} ∧
   handle store_env (GetByID "p1") w = ((Some Scenario.post_off, None), w) ∧
   AIChatOpen Scenario.post_off = false ∧
   AuthorID Scenario.post_off = ID Scenario.alice ∧
   handle store_env (EnqueuePostEmbedding Scenario.post_off Scenario.alice) w = (None, w2) ∧
   handle store_env (GetByID "p1") w2 = ((Some Scenario.post_off, None), w2)) ∧
  value_of out = ((true, None), Some not_available).
Proof.
  intros w w2 out. split; [by split_and!|].
  exact (proj1 (OpenAIMode_then_ChatStream (lib:=reference_lib) (utils:=reference_utils)
    store_env "p1" Scenario.alice Scenario.bob dog_question {| Question := "what is a dog" |}
    w w w2 w2 Scenario.post_off eq_refl eq_refl eq_refl eq_refl eq_refl eq_refl)).
Defined.

(** Alice turns chat off and Bob asks: he is refused. *)
Lemma DisableOpenAIMode_then_ChatStream_witness :
  let w := Scenario.store Scenario.post_pending three_lines Scenario.healthy in
  let w2 := set_posts (insert "p1" (switched_off Scenario.post_pending)) w in
  let w3 := set_chunks (delete "p1") w2 in
  let out := run store_env
    (DisableOpenAIMode "p1" Scenario.alice ≫= λ disabled,
     ChatStream (lib:=reference_lib) (utils:=reference_utils) "p1" Scenario.bob dog_question
       ≫= λ err, Ret (disabled, err)) w in
  (json_Unmarshal_AskRequest (GoLib:=reference_lib) dog_question
     = inr {| Question := "what is a dog" |} ∧
   handle store_env (GetByID "p1") w = ((Some Scenario.post_pending, None), w) ∧
   AIChatOpen Scenario.post_pending = true ∧
   AuthorID Scenario.post_pending = ID Scenario.alice ∧
   handle store_env (Update (switched_off Scenario.post_pending)) w = (None, w2) ∧
   handle store_env (DeleteEmbeddingsByPostID "p1") w2 = (None, w3) ∧
   handle store_env (GetByID "p1") w3
     = ((Some (switched_off Scenario.post_pending), None), w3)) ∧
  value_of out = ((true, None), Some not_available).
Proof.
  intros w w2 w3 out. split; [by split_and!|].
  exact (proj1 (DisableOpenAIMode_then_ChatStream (lib:=reference_lib) (utils:=reference_utils)
    store_env "p1" Scenario.alice Scenario.bob dog_question {| Question := "what is a dog" |}
    w w w2 w3 w3 Scenario.post_pending eq_refl eq_refl eq_refl eq_refl eq_refl eq_refl eq_refl)).
Defined.

(** ** The context, whatever the sort *)

Lemma IsSorted_tail {A} (less : A → A → bool) (x : A) (l : list A) :
  IsSorted less (x :: l) → IsSorted less l.
Proof. intros Hl i a b Ha Hb. by apply (Hl (S i)). Qed.

(** A list has one sorted arrangement at most, when elements that tie are
    equal. *)
Lemma IsSorted_unique {A} (less : A → A → bool) (l1 l2 : list A) :
  transitive_ordering less l1 →
  (∀ x y, x ∈ l1 → y ∈ l1 → less x y = false → less y x = false → x = y) →
  IsSorted less l1 → IsSorted less l2 → l1 ≡ₚ l2 → l1 = l2.
Proof.
  revert l2. induction l1 as [|x l1 IH]; intros l2 Hord Hties H1 H2 Hperm.
  { by apply Permutation_nil_l in Hperm. }
  destruct l2 as [|y l2]; [by apply Permutation_nil_r in Hperm|].
  assert (Hord2 : transitive_ordering less (y :: l2)).
  { eapply transitive_ordering_subseteq; [|exact Hord]. intros z Hz. by rewrite Hperm. }
  assert (x = y) as <-.
  { assert (Hx : x ∈ y :: l2) by (rewrite <-Hperm; left).
    assert (Hy : y ∈ x :: l1) by (rewrite Hperm; left).
    apply elem_of_cons in Hx as [?|Hx]; [done|].
    apply elem_of_cons in Hy as [?|Hy]; [done|].
    apply list_elem_of_lookup in Hx as [i Hi]. apply list_elem_of_lookup in Hy as [j Hj].
    apply Hties; [left|right; by eapply list_elem_of_lookup_2| |].
    - by apply (IsSorted_lookup less (y :: l2) Hord2 H2 0 (S i)); [lia| |].
    - by apply (IsSorted_lookup less (x :: l1) Hord H1 0 (S j)); [lia| |]. }
  f_equal. apply IH.
  - eapply transitive_ordering_subseteq; [|exact Hord]. intros z Hz. by right.
  - intros a b Ha Hb. apply Hties; by right.
  - by eapply IsSorted_tail.
  - by eapply IsSorted_tail.
  - by eapply Permutation_cons_inv.
Qed.

Lemma concat_empty (sep : string) (l : list string) :
  sep ≠ "" → String.concat sep l = "" ↔ l = [] ∨ l = [""].
Proof.
  intros Hsep. destruct l as [|x [|y l]]; simpl.
  - naive_solver.
  - naive_solver.
  - split; [|naive_solver]. destruct x; [|done]. by destruct sep.
Qed.

Section ContextFurther.
Context `{utils : Utils}.

(** X15. When no score is NaN and no two different scored chunks tie, the
    ranking, and with it the context, depends neither on the order in
    which the chunks are stored nor on how [sort.Slice] is implemented. *)
Theorem ranking_independent_of_order (lib1 lib2 : GoLib)
    (chunks1 chunks2 : list Embedding) (questionEmbedding : list float32) :
  chunks1 ≡ₚ chunks2 →
  (∀ chunk, chunk ∈ chunks1 →
     CosineSimilarity (Vector chunk) questionEmbedding ≠ S754_nan) →
  (∀ c c', c ∈ score_chunks chunks1 questionEmbedding →
     c' ∈ score_chunks chunks1 questionEmbedding →
     float_gt (Score c) (Score c') = false → float_gt (Score c') (Score c) = false →
     c = c') →
  sort_chunks (lib:=lib1) (score_chunks chunks1 questionEmbedding)
    = sort_chunks (lib:=lib2) (score_chunks chunks2 questionEmbedding) ∧
  chat_context (lib:=lib1) chunks1 questionEmbedding
    = chat_context (lib:=lib2) chunks2 questionEmbedding.
Proof.
  intros Hperm Hnan Hties.
  set (scored1 := score_chunks chunks1 questionEmbedding) in *.
  set (scored2 := score_chunks chunks2 questionEmbedding).
  assert (Hscored : scored1 ≡ₚ scored2) by (by apply fmap_Permutation).
  assert (Hscores : ∀ c, c ∈ scored1 → Score c ≠ S754_nan).
  { intros c Hc. apply list_elem_of_fmap in Hc as (chunk & -> & Hchunk). by apply Hnan. }
  assert (Hranked : sort_chunks (lib:=lib1) scored1 = sort_chunks (lib:=lib2) scored2).
  { apply (IsSorted_unique by_score).
    - apply by_score_ordering. intros c Hc. apply Hscores.
      by rewrite <-(sort_chunks_Permutation (lib:=lib1)).
    - intros c c' Hc Hc'. rewrite (sort_chunks_Permutation (lib:=lib1)) in Hc, Hc'.
      by apply Hties.
    - apply (sort_Slice_IsSorted (GoLib:=lib1)). by apply by_score_ordering.
    - apply (sort_Slice_IsSorted (GoLib:=lib2)). apply by_score_ordering.
      intros c Hc. apply Hscores. by rewrite Hscored.
    - by rewrite !sort_chunks_Permutation. }
  split; [done|]. unfold chat_context. fold scored1 scored2. by rewrite Hranked.
Qed.

Context `{lib : GoLib}.

(** The top chunks are the texts of the first three ranked chunks, and
    the ranked chunks carry the texts of the stored ones. *)
Lemma topChunks_texts (chunks : list Embedding) (questionEmbedding : list float32) :
  let ranked := sort_chunks (score_chunks chunks questionEmbedding) in
  topChunks_loop 3 0 ranked [] = Text <$> take 3 ranked ∧
  Text <$> ranked ≡ₚ Content <$> chunks ∧
  length ranked = length chunks.
Proof.
  intros ranked. split_and!.
  - rewrite topChunks_loop_take by done. by rewrite drop_0, app_nil_l.
  - subst ranked. rewrite sort_chunks_Permutation. unfold score_chunks.
    by rewrite <-list_fmap_compose.
  - subst ranked. rewrite sort_chunks_Permutation. unfold score_chunks.
    by rewrite length_fmap.
Qed.

(** X16. The texts that go into the context are texts of stored chunks,
    none taken more often than it is stored: three of them when the post
    has three chunks or more, and all of them, in some order, when it has
    fewer. *)
Theorem top_chunks_are_stored (chunks : list Embedding) (questionEmbedding : list float32) :
  let topChunks :=
    topChunks_loop 3 0 (sort_chunks (score_chunks chunks questionEmbedding)) [] in
  topChunks ⊆+ (Content <$> chunks) ∧
  length topChunks = min 3 (length chunks) ∧
  ((length chunks ≤ 3)%nat → topChunks ≡ₚ Content <$> chunks).
Proof.
  intros topChunks. subst topChunks.
  destruct (topChunks_texts chunks questionEmbedding) as (-> & Htexts & Hlen).
  split_and!.
  - rewrite <-Htexts. apply fmap_submseteq, sublist_submseteq, sublist_take.
  - by rewrite length_fmap, length_take, Hlen.
  - intros Hfew. rewrite take_ge by lia. exact Htexts.
Qed.

(** X17. The fallback sentence is the context exactly when the post has no
    chunk, or a single chunk whose text is empty; in every other case the
    context is the joined texts, which are not empty. *)
Theorem chat_context_fallback (chunks : list Embedding) (questionEmbedding : list float32) :
  let topChunks :=
    topChunks_loop 3 0 (sort_chunks (score_chunks chunks questionEmbedding)) [] in
  let nothing_to_say := chunks = [] ∨ ∃ chunk, chunks = [chunk] ∧ Content chunk = "" in
  (nothing_to_say → chat_context chunks questionEmbedding = no_context) ∧
  (¬ nothing_to_say →
     chat_context chunks questionEmbedding
       = strings_Join topChunks (String LF (String LF "")) ∧
     chat_context chunks questionEmbedding ≠ "").
Proof.
  intros topChunks nothing_to_say.
  assert (Hlen : length topChunks = min 3 (length chunks)).
  { subst topChunks.
    destruct (topChunks_texts chunks questionEmbedding) as (-> & _ & Hlen).
    by rewrite length_fmap, length_take, Hlen. }
  assert (Hfew : (length chunks ≤ 3)%nat → topChunks ≡ₚ Content <$> chunks).
  { intros Hfew. subst topChunks.
    destruct (topChunks_texts chunks questionEmbedding) as (-> & Htexts & Hlen').
    by rewrite take_ge by lia. }
  assert (Hnothing : nothing_to_say ↔ topChunks = [] ∨ topChunks = [""]).
  { subst nothing_to_say. split.
    - intros [->|(chunk & -> & Hempty)].
      + left. by apply nil_length_inv.
      + right. apply Permutation_singleton_r. rewrite Hfew by (simpl; lia).
        simpl. by rewrite Hempty.
    - intros [Htop|Htop].
      + left. rewrite Htop in Hlen. cbn [length] in Hlen.
        apply nil_length_inv. lia.
      + rewrite Htop in Hlen. cbn [length] in Hlen.
        destruct chunks as [|chunk [|chunk' chunks]]; cbn [length] in Hlen; try lia.
        right. exists chunk. split; [done|].
        rewrite Htop in Hfew. specialize (Hfew ltac:(simpl; lia)).
        symmetry in Hfew. apply Permutation_singleton_r in Hfew. by injection Hfew. }
  assert (Hjoin : nothing_to_say ↔ strings_Join topChunks (String LF (String LF "")) = "").
  { rewrite Hnothing. unfold strings_Join. by rewrite concat_empty. }
  unfold chat_context, build_context. cbn zeta. fold topChunks.
  destruct (String.eqb_spec (strings_Join topChunks (String LF (String LF ""))) "")
    as [Hempty|Hfull].
  - split; [done|]. intros Hnot. by destruct Hnot; apply Hjoin.
  - split; [|done]. intros Hyes. by apply Hjoin in Hyes.
Qed.

End ContextFurther.

(** The two sample chunks stored in either order, ranked by either sort:
    the same context. *)
Lemma ranking_independent_of_order_witness :
  let question := [F64.of_Z 1; F64.of_Z 3] in
  let context := "dogs are loyal" +:+ String LF (String LF "cats are mammals") in
  [Scenario.cats; Scenario.dogs] ≡ₚ [Scenario.dogs; Scenario.cats] ∧
  chat_context (lib:=reference_lib) (utils:=reference_utils)
    [Scenario.cats; Scenario.dogs] question = context ∧
  chat_context (lib:=go119_lib) (utils:=reference_utils)
    [Scenario.dogs; Scenario.cats] question = context.
Proof.
  intros question context.
  assert (Hperm : [Scenario.cats; Scenario.dogs] ≡ₚ [Scenario.dogs; Scenario.cats])
    by apply Permutation_swap.
  split; [exact Hperm|]. split; [by vm_compute|].
  transitivity (chat_context (lib:=reference_lib) (utils:=reference_utils)
                  [Scenario.cats; Scenario.dogs] question); [|by vm_compute].
  symmetry.
  refine (proj2 (ranking_independent_of_order (utils:=reference_utils)
                   reference_lib go119_lib
                   [Scenario.cats; Scenario.dogs] [Scenario.dogs; Scenario.cats]
                   question Hperm _ _)).
  - intros chunk Hchunk.
    repeat (apply elem_of_cons in Hchunk as [->|Hchunk]; [by vm_compute|]).
    by apply elem_of_nil in Hchunk.
  - assert (Hties : Forall (λ c, Forall (λ c',
        float_gt (Score c) (Score c') = false → float_gt (Score c') (Score c) = false →
        c = c')
        (score_chunks (utils:=reference_utils) [Scenario.cats; Scenario.dogs] question))
        (score_chunks (utils:=reference_utils) [Scenario.cats; Scenario.dogs] question)).
    { repeat constructor; vm_compute; congruence. }
    intros c c' Hc Hc'. rewrite Forall_forall in Hties. specialize (Hties c Hc).
    rewrite Forall_forall in Hties. by apply Hties.
Defined.

(** ** The lines of a response *)

Lemma lines_unterminated (tail : string) :
  LF ∉ String.list_ascii_of_string tail → lines tail = [].
Proof.
  induction tail as [|c tail IH]; simpl; [done|].
  intros Hno. apply not_elem_of_cons in Hno as [Hc Hno].
  case_decide; [done|]. by rewrite IH.
Qed.

Lemma lines_app_unterminated (body tail : string) :
  LF ∉ String.list_ascii_of_string tail → lines (body +:+ tail) = lines body.
Proof.
  intros Hno. induction body as [|c body IH]; simpl.
  - by apply lines_unterminated.
  - by rewrite IH.
Qed.

Lemma lines_terminated_nonempty (first : string) :
  lines (first +:+ String LF "") ≠ [].
Proof.
  induction first as [|c first IH]; simpl; [done|].
  case_decide; [done|]. by destruct (lines (first +:+ String LF "")).
Qed.

Lemma lines_app_terminated (first rest : string) :
  lines (first +:+ String LF rest)
    = (lines (first +:+ String LF "") ++ lines rest)%list.
Proof.
  induction first as [|c first IH]; simpl.
  - done.
  - rewrite IH. case_decide; [done|].
    pose proof (lines_terminated_nonempty first).
    by destruct (lines (first +:+ String LF "")).
Qed.

Section LinesFurther.
Context `{lib : GoLib}.

(** X18. What follows the last newline of the response is never
    delivered, be it a complete fragment: [StreamAIResponse] delivers the
    fragments of the body up to its last newline, and nothing else. *)
Theorem StreamAIResponse_drops_unterminated_tail (E : Env) (context question : string)
    (w : World E) (resp : Response) (body tail : string) :
  let out := run E (StreamAIResponse context question) w in
  posted (log_of out) = [inr resp] →
  Body resp = body +:+ tail →
  LF ∉ String.list_ascii_of_string tail →
  fragments (log_of out) = fragment_for <$> omap payload_text (lines body).
Proof.
  intros out Hposted Hbody Hno.
  destruct (StreamAIResponse_outcome E context question w) as (r & Hr & _ & Hfrag).
  fold out in Hr, Hfrag. rewrite Hposted in Hr. injection Hr as <-.
  by rewrite Hfrag, Hbody, lines_app_unterminated.
Qed.

(** X19. Lines are handled one by one, and nothing is carried from one to
    the next: a response delivers what its part up to any newline
    delivers, followed by what the part after that newline delivers. *)
Theorem StreamAIResponse_line_by_line (E : Env) (context question : string)
    (w : World E) (resp : Response) (first rest : string) :
  let out := run E (StreamAIResponse context question) w in
  posted (log_of out) = [inr resp] →
  Body resp = first +:+ String LF rest →
  fragments (log_of out) =
    ((fragment_for <$> omap payload_text (lines (first +:+ String LF ""))) ++
     (fragment_for <$> omap payload_text (lines rest)))%list.
Proof.
  intros out Hposted Hbody.
  destruct (StreamAIResponse_outcome E context question w) as (r & Hr & _ & Hfrag).
  fold out in Hr, Hfrag. rewrite Hposted in Hr. injection Hr as <-.
  by rewrite Hfrag, Hbody, lines_app_terminated, omap_app, fmap_app.
Qed.

(** X20. The loop body calls [onChunk] at most once for a line, and only
    for a line that starts with "data: " and whose payload, white space
    trimmed, is not empty, is not "[DONE]", and decodes to an object whose
    "message" is an object whose "content" is a string; for any other
    line it calls nothing at all. *)
Theorem fragment_only_for_text_lines (E : Env) (line : string) (w : World E) :
  let raw := bytes_TrimSpace (slice_from 6 line) in
  let carries content :=
    bytes_HasPrefix line "data: " = true ∧ raw ≠ "" ∧ raw ≠ "[DONE]" ∧
    ∃ chunk message,
      json_Unmarshal_map raw = inr chunk ∧
      map_index chunk "message" = VMap message ∧
      map_index message "content" = VString content in
  (∀ content, payload_text line = Some content ↔ carries content) ∧
  (∀ content, carries content →
     fragments (log_of (run E (handle_line line) w)) = [fragment_for content]) ∧
  ((∀ content, ¬ carries content) → log_of (run E (handle_line line) w) = []).
Proof.
  intros raw carries.
  assert (Hiff : ∀ content, payload_text line = Some content ↔ carries content).
  { intros content. subst carries. cbv beta. unfold payload_text. fold raw.
    destruct (bytes_HasPrefix line "data: "); [|naive_solver].
    destruct (Nat.eqb_spec (String.length raw) 0) as [Hlen|Hlen]; simpl.
    { destruct raw; [naive_solver|done]. }
    assert (Hraw : raw ≠ "") by (by intros Heq; rewrite Heq in Hlen).
    unfold bytes_Equal. destruct (String.eqb_spec raw "[DONE]") as [Hdone|Hdone];
      [naive_solver|].
    destruct (json_Unmarshal_map raw) as [e|chunk]; [naive_solver|].
    destruct (map_index chunk "message") as [| | | | |message] eqn:Hmessage; simpl;
      try (split; [done|]; intros (_ & _ & _ & chunk' & message' & [= <-] & ? & _);
           congruence).
    destruct (map_index message "content") as [| | |s| |] eqn:Hcontent; simpl;
      try (split; [done|]; intros (_ & _ & _ & chunk' & message' & [= <-] & ? & ?);
           congruence).
    split.
    - intros [= ->]. split_and!; [done..|]. by exists chunk, message.
    - intros (_ & _ & _ & chunk' & message' & [= <-] & ? & ?). congruence. }
  split; [exact Hiff|]. split.
  - intros content Hcarries. apply Hiff in Hcarries.
    by rewrite fragments_handle_line, Hcarries.
  - intros Hnone. rewrite handle_line_payload.
    destruct (payload_text line) as [content|] eqn:Htext; [|done].
    by destruct (Hnone content); apply Hiff.
Qed.

End LinesFurther.

(** The second fragment line is cut off by the end of the body: only the
    first is delivered. *)
Lemma StreamAIResponse_drops_unterminated_tail_witness :
  let w := Scenario.store Scenario.post_pending cut_short Scenario.healthy in
  let resp := {| StatusCode := 200; Body := cut_short; BodyErr := Scenario.io_EOF |} in
  let head := Reference.json "data: {'message':{'content':'Dogs'}}" +:+ String LF "" in
  let tail := Reference.json "data: {'message':{'content':' bark'}}" in
  let out := run store_env (StreamAIResponse (lib:=reference_lib) "context" "question") w in
  (posted (log_of out) = [inr resp] ∧
   Body resp = head +:+ tail ∧
   LF ∉ String.list_ascii_of_string tail) ∧
  payload_text (lib:=reference_lib) (tail +:+ String LF "") = Some " bark" ∧
  fragments (log_of out) = [Reference.json "{'text':'Dogs'}"].
Proof.
  intros w resp head tail out.
  assert (Hno : LF ∉ String.list_ascii_of_string tail).
  { apply (bool_decide_unpack _). by vm_compute. }
  split; [by split_and!|]. split; [reflexivity|].
  etrans; [|reflexivity].
  exact (StreamAIResponse_drops_unterminated_tail (lib:=reference_lib) store_env
           "context" "question" w resp head tail eq_refl eq_refl Hno).
Defined.

(** The stream of three lines, cut after its first line. *)
Lemma StreamAIResponse_line_by_line_witness :
  let w := Scenario.store Scenario.post_pending three_lines Scenario.healthy in
  let resp := {| StatusCode := 200; Body := three_lines; BodyErr := Scenario.io_EOF |} in
  let first := Reference.json "data: {'message':{'role':'assistant','content':'Dogs'}}" in
  let rest := Reference.json "data: {'message':{'content':" +:+ String LF (
              "data: [DONE]" +:+ String LF "") in
  let out := run store_env (StreamAIResponse (lib:=reference_lib) "context" "question") w in
  (posted (log_of out) = [inr resp] ∧ Body resp = first +:+ String LF rest) ∧
  fragments (log_of out) = ([Reference.json "{'text':'Dogs'}"] ++ [])%list.
Proof.
  intros w resp first rest out. split; [by split|].
  etrans; [|reflexivity].
  exact (StreamAIResponse_line_by_line (lib:=reference_lib) store_env
           "context" "question" w resp first rest eq_refl eq_refl).
Defined.

(** ** [CreateChat] *)

(** X21. [CreateChat] hands a chat to the repository, and answers what the
    repository answers, exactly when the chat is not nil, both of its ids
    are set and both of its texts are non-empty.  Any other chat is
    refused with the repository untouched: "chat cannot be nil", else
    "chat must have UserID and PostID" (also when the texts are empty as
    well), else "chat must have Prompt and Response".  The post id and the
    user passed along are not looked at. *)
Theorem CreateChat_validates (AIRepo : AIRepositoryInterface) (chat : option AIResponse.t)
    (postID : string) (user : option User) (s : Repo AIRepo) :
  let out := CreateChat AIRepo chat postID user s in
  (∀ c, chat = Some c → valid_chat c → out = AIRepo_CreateChat AIRepo c s) ∧
  (chat = None → out = (Some (fmt_Errorf "chat cannot be nil"), s)) ∧
  (∀ c, chat = Some c →
     AIResponse.UserID c = uuid_Nil ∨ AIResponse.PostID c = uuid_Nil →
     out = (Some (fmt_Errorf "chat must have UserID and PostID"), s)) ∧
  (∀ c, chat = Some c →
     AIResponse.UserID c ≠ uuid_Nil → AIResponse.PostID c ≠ uuid_Nil →
     AIResponse.Prompt c = "" ∨ AIResponse.Response c = "" →
     out = (Some (fmt_Errorf "chat must have Prompt and Response"), s)) ∧
  (∀ postID' user', CreateChat AIRepo chat postID' user' s = out).
Proof.
  intros out. subst out. unfold CreateChat. split_and!.
  - intros c -> (Huser & Hpost & Hprompt & Hresponse).
    rewrite !bool_decide_false by done. simpl.
    by rewrite (proj2 (String.eqb_neq _ _) Hprompt), (proj2 (String.eqb_neq _ _) Hresponse).
  - by intros ->.
  - intros c -> Hids.
    destruct Hids as [Hid|Hid]; rewrite (bool_decide_true _ Hid); [done|].
    by rewrite orb_true_r.
  - intros c -> Huser Hpost Htexts.
    rewrite !bool_decide_false by done. simpl.
    destruct Htexts as [->| ->]; [done|]. by rewrite orb_true_r.
  - done.
Qed.

Lemma CreateChat_state (AIRepo : AIRepositoryInterface) (chat : option AIResponse.t)
    (postID : string) (user : option User) (s : Repo AIRepo) :
  (CreateChat AIRepo chat postID user s).2 =
    match chat with
    | Some c => if decide (valid_chat c) then (AIRepo_CreateChat AIRepo c s).2 else s
    | None => s
    end.
Proof.
  destruct chat as [c|]; [|done]. unfold CreateChat, valid_chat.
  destruct (decide (AIResponse.UserID c = uuid_Nil)) as [Hu|Hu].
  { rewrite (bool_decide_true _ Hu). simpl. by rewrite decide_False by naive_solver. }
  destruct (decide (AIResponse.PostID c = uuid_Nil)) as [Hp|Hp].
  { rewrite (bool_decide_true _ Hp), orb_true_r. by rewrite decide_False by naive_solver. }
  rewrite !bool_decide_false by done. simpl.
  destruct (String.eqb_spec (AIResponse.Prompt c) "") as [Hq|Hq]; simpl.
  { by rewrite decide_False by naive_solver. }
  destruct (String.eqb_spec (AIResponse.Response c) "") as [Hr|Hr]; simpl.
  { by rewrite decide_False by naive_solver. }
  by rewrite decide_True.
Qed.

(** X22. A series of calls to [CreateChat] leaves the repository as the
    valid chats among them, handed to it in the same order, leave it: the
    service filters, and does nothing else.  A repository that stores what
    it is handed therefore holds valid chats only, provided it held only
    such before. *)
Theorem CreateChat_each_filters (AIRepo : AIRepositoryInterface)
    (requests : list (option AIResponse.t * string * option User)) (s : Repo AIRepo) :
  let chats := filter valid_chat (omap (λ request, request.1.1) requests) in
  (CreateChat_each AIRepo requests s).2 = (AIRepo_CreateChat_each AIRepo chats s).2 ∧
  (∀ stored : Repo memory_repo,
     (CreateChat_each memory_repo requests stored).2 = (stored ++ chats)%list ∧
     (Forall valid_chat stored →
        Forall valid_chat (CreateChat_each memory_repo requests stored).2)).
Proof.
  intros chats.
  assert (Hgeneral : ∀ (R : AIRepositoryInterface) (s : Repo R),
    (CreateChat_each R requests s).2 = (AIRepo_CreateChat_each R chats s).2).
  { intros R. subst chats. induction requests as [|[[chat postID] user] requests IH];
      intros s'; [done|].
    cbn [CreateChat_each].
    pose proof (CreateChat_state R chat postID user s') as Hstate.
    destruct (CreateChat R chat postID user s') as [err s1]. cbn [snd] in Hstate.
    specialize (IH s1).
    destruct (CreateChat_each R requests s1) as [errs s2]. cbn [snd] in *.
    destruct chat as [c|]; simpl; [|by subst s1].
    rewrite filter_cons. destruct (decide (valid_chat c)); [|by subst s1].
    cbn [AIRepo_CreateChat_each].
    destruct (AIRepo_CreateChat R c s') as [err' s1']. cbn [snd] in Hstate. subst s1'.
    by destruct (AIRepo_CreateChat_each R _ s1) as [errs' s2']. }
  split; [apply Hgeneral|]. intros stored.
  assert (Hstored : (CreateChat_each memory_repo requests stored).2 = (stored ++ chats)%list).
  { rewrite Hgeneral. generalize chats. clear. intros chats. revert stored.
    induction chats as [|c chats IH]; intros stored; simpl; [by rewrite app_nil_r|].
    specialize (IH (stored ++ [c])%list).
    destruct (AIRepo_CreateChat_each memory_repo chats _) as [errs s2].
    simpl in *. by rewrite IH, <-app_assoc. }
  split; [exact Hstored|]. intros Hvalid. rewrite Hstored.
  apply Forall_app_2; [done|]. subst chats.
  apply Forall_forall. intros c Hc. by apply list_elem_of_filter in Hc as [Hc _].
Qed.

(** ** [ClassifyContent] *)

(** X23. [ClassifyContent] succeeds exactly when the message is not empty
    and the classifier's label for it is not [IntentUnknown]; it then
    returns that label.  When it fails the label returned is empty: an
    empty message is refused before the classifier is asked, and an
    unknown one with an error that names the unknown label. *)
Theorem ClassifyContent_spec `{Intents} (message : string) :
  let out := ClassifyContent message in
  (out.2 = None ↔ message ≠ "" ∧ IntentClassifier message ≠ IntentUnknown) ∧
  (out.2 = None → out.1 = IntentClassifier message ∧ out.1 ≠ IntentUnknown) ∧
  (out.2 ≠ None → out.1 = "") ∧
  (message = "" → out = ("", Some (fmt_Errorf "message cannot be empty"))) ∧
  (message ≠ "" → IntentClassifier message = IntentUnknown →
     out = ("", Some (fmt_Errorf ("unknown message type: " +:+ IntentUnknown)))).
Proof.
  intros out. subst out. unfold ClassifyContent. cbn zeta.
  destruct (String.eqb_spec message "") as [Hempty|Hfull].
  { split_and!; try done; naive_solver. }
  destruct (String.eqb_spec (IntentClassifier message) IntentUnknown) as [Hunknown|Hknown].
  - unfold fmt_Errorf_s. rewrite Hunknown. split_and!; try done; naive_solver.
  - split_and!; try done; naive_solver.
Qed.

(** ** The allowed origins *)

Lemma strings_Split_nonempty (s : string) (sep : ascii) : strings_Split s sep ≠ [].
Proof.
  destruct s as [|c s]; simpl; [done|].
  case_decide; [done|]. by destruct (strings_Split s sep).
Qed.

Lemma strings_Split_Join (s : string) (sep : ascii) :
  strings_Join (strings_Split s sep) (String sep "") = s.
Proof.
  unfold strings_Join. induction s as [|c s IH]; simpl; [done|].
  pose proof (strings_Split_nonempty s sep) as Hne.
  destruct (strings_Split s sep) as [|piece pieces]; [done|].
  rewrite <-IH. case_decide as Hc.
  - by subst c.
  - by destruct pieces.
Qed.

Lemma strings_Split_pieces (s : string) (sep : ascii) :
  Forall (λ piece, sep ∉ String.list_ascii_of_string piece) (strings_Split s sep).
Proof.
  induction s as [|c s IH]; simpl.
  - repeat constructor. apply not_elem_of_nil.
  - case_decide as Hc.
    + constructor; [apply not_elem_of_nil|done].
    + destruct (strings_Split s sep) as [|piece pieces]; simpl.
      * repeat constructor. apply not_elem_of_cons. split; [done|apply not_elem_of_nil].
      * apply Forall_cons in IH as [Hpiece Hpieces]. constructor; [|done].
        simpl. apply not_elem_of_cons. by split.
Qed.

(** X24. The origins [main] allows are the pieces of one environment
    variable, ALLOWED_ORIGINS_PROD when the mode is "release" and
    ALLOWED_ORIGINS_DEV in every other mode, cut at its commas and at
    nothing else: joined by commas they give the variable back.  There is
    always at least one origin; an unset or empty variable gives the one
    origin that is the empty string. *)
Theorem coreUrl_spec (E : Env) (AppEnv : string) (w : World E) :
  let out := run E (coreUrl AppEnv) w in
  let key := if decide (AppEnv = "release")
             then "ALLOWED_ORIGINS_PROD" else "ALLOWED_ORIGINS_DEV" in
  ∃ origins : string,
    log_of out = [ev (os_Getenv key) origins] ∧
    value_of out ≠ [] ∧
    strings_Join (value_of out) "," = origins ∧
    Forall (λ origin, ","%char ∉ String.list_ascii_of_string origin) (value_of out) ∧
    (origins = "" → value_of out = [""]).
Proof.
  intros out key. subst out key. unfold coreUrl.
  destruct (String.eqb_spec AppEnv "release") as [Hrelease|Hother].
  - rewrite decide_True by done. simpl.
    destruct (handle E (os_Getenv "ALLOWED_ORIGINS_PROD") w) as [origins w1].
    exists origins. unfold log_of, value_of. simpl. split_and!; [done| | | |by intros ->].
    + apply strings_Split_nonempty.
    + apply strings_Split_Join.
    + apply strings_Split_pieces.
  - rewrite decide_False by done. simpl.
    destruct (handle E (os_Getenv "ALLOWED_ORIGINS_DEV") w) as [origins w1].
    exists origins. unfold log_of, value_of. simpl. split_and!; [done| | | |by intros ->].
    + apply strings_Split_nonempty.
    + apply strings_Split_Join.
    + apply strings_Split_pieces.
Qed.

(** ** What [ChatStream] asks the model *)
Section ChatStreamRequest.
Context `{lib : GoLib} `{utils : Utils}.

(** X25. For a post with chat on, once the question is embedded and the
    chunks are loaded, [ChatStream] reads AI_MODEL and then AI_HOST from
    the environment and posts to the address AI_HOST followed by
    "/api/generate" one JSON request: the model as read, streaming on, the
    context built from the chunks as the system message and the question
    of the payload as the user message. *)
Theorem ChatStream_request (E : Env) (postID : string) (userData : User) (prompt : string)
    (req : AskRequest) (w w1 w2 w3 : World E) (p : Post)
    (questionEmbedding : list float32) (chunks : list Embedding) :
  json_Unmarshal_AskRequest prompt = inr req →
  handle E (GetByID postID) w = ((Some p, None), w1) →
  AIChatOpen p = true →
  handle E (GetEmbedding (Question req)) w1 = ((questionEmbedding, None), w2) →
  handle E (GetEmbeddingByPostID postID) w2 = ((chunks, None), w3) →
  let out := run E (ChatStream postID userData prompt) w in
  ∃ (models ollamaURL : string) (r : error + Response) (rest : list Event),
    log_of out =
      ev (GetByID postID) (Some p, None)
      :: ev (GetEmbedding (Question req)) (questionEmbedding, None)
      :: ev (GetEmbeddingByPostID postID) (chunks, None)
      :: ev (os_Getenv "AI_MODEL") models
      :: ev (os_Getenv "AI_HOST") ollamaURL
      :: ev (http_Post (ollamaURL +:+ "/api/generate") "application/json"
               (request_body models (chat_context chunks questionEmbedding) (Question req))) r
      :: rest ∧
    posted (log_of out) = [r].
Proof.
  intros Hparse Hget Hopen Hembed Hchunks out. subst out.
  rewrite (ChatStream_run E _ _ _ _ _ _ _ _ Hparse Hget). cbn zeta.
  assert (Hgate : gate_closed (Some p) None = false).
  { unfold gate_closed. simpl. by rewrite Hopen. }
  rewrite Hgate, Hembed. cbn [fst snd]. rewrite Hchunks. cbn [fst snd].
  destruct (StreamAIResponse_log E (chat_context chunks questionEmbedding) (Question req) w3)
    as (models & ollamaURL & r & rest & Hlog & _).
  destruct (StreamAIResponse_outcome E (chat_context chunks questionEmbedding) (Question req) w3)
    as (r' & Hposted & _).
  destruct (run E (StreamAIResponse _ _) w3) as [[v w4] log].
  unfold log_of in *. cbn [fst snd] in *. subst log.
  exists models, ollamaURL, r, rest. split; [done|].
  rewrite !posted_cons in Hposted. cbn [answer_of] in Hposted.
  rewrite !posted_cons. cbn [answer_of].
  by injection Hposted as -> ->.
Qed.

End ChatStreamRequest.

(** Bob's question about dogs, as it is put to the model. *)
Lemma ChatStream_request_witness :
  let w := Scenario.store Scenario.post_pending three_lines Scenario.healthy in
  let context := "dogs are loyal" +:+ String LF (String LF "cats are mammals") in
  let out := run store_env
    (ChatStream (lib:=reference_lib) (utils:=reference_utils) "p1" Scenario.bob dog_question) w in
  (json_Unmarshal_AskRequest (GoLib:=reference_lib) dog_question
     = inr {| Question := "what is a dog" |} ∧
   handle store_env (GetByID "p1") w = ((Some Scenario.post_pending, None), w) ∧
   AIChatOpen Scenario.post_pending = true ∧
   handle store_env (GetEmbedding "what is a dog") w
     = (([F64.of_Z 1; F64.of_Z 3], None), w) ∧
   handle store_env (GetEmbeddingByPostID "p1") w
     = (([Scenario.cats; Scenario.dogs], None), w)) ∧
  log_of out !! 5 =
    Some (ev (http_Post "http://localhost:11434/api/generate" "application/json"
                (request_body (lib:=reference_lib) "llama3" context "what is a dog"))
             (endpoint w)).
Proof.
  intros w context out. split; [by split_and!|].
  destruct (ChatStream_request (lib:=reference_lib) (utils:=reference_utils) store_env
              "p1" Scenario.bob dog_question {| Question := "what is a dog" |} w w w w
              Scenario.post_pending [F64.of_Z 1; F64.of_Z 3] [Scenario.cats; Scenario.dogs]
              eq_refl eq_refl eq_refl eq_refl eq_refl)
    as (models & ollamaURL & r & rest & Hlog & _).
  fold out in Hlog. by vm_compute.
Defined.
